(** * Event polling while the Python interpreter runs

    A shallow embedding of [src/event_loop.cpp] (reticulate): the
    mutex-guarded [EventPollingSignal], the background thread
    [eventPollingWorker] that throttles calls to [Py_AddPendingCall], and
    the callback [pollForEvents] that runs on the main interpreter thread
    and re-arms the signal.

    The code is modelled twice, from the same primitive operations:
    - sequentially, every function as a computation that may return,
      leave by a non-local jump, or block on the mutex;
    - as an interleaving of the two threads, one source statement per
      step, with the history of what the threads did. *)

From Stdlib Require Import List Bool ZArith Lia.
Import ListNotations.

(** ** The two threads of the subsystem *)

(** [Worker] is the detached thread started by [initialize], running
    [eventPollingWorker]; [Main] is the main interpreter thread, on which
    Python runs the pending call [pollForEvents]. *)
Inductive thread : Type :=
| Worker
| Main.

(** ** Sequential computations *)

(** A call either returns a value, leaves by a non-local jump (an R error
    is a [longjmp]), or blocks forever on a mutex that is never released. *)
Inductive result (S A : Type) : Type :=
| Done (a : A) (s : S)
| LongJmp (s : S)
| Blocked.
Arguments Done {S A} a s.
Arguments LongJmp {S A} s.
Arguments Blocked {S A}.

Definition comp (S A : Type) : Type := S -> result S A.

Definition ret {S A : Type} (a : A) : comp S A :=
  fun s => Done a s.

Definition bind {S A B : Type} (c : comp S A) (k : A -> comp S B) : comp S B :=
  fun s =>
    match c s with
    | Done a s' => k a s'
    | LongJmp s' => LongJmp s'
    | Blocked => Blocked
    end.

Declare Scope comp_scope.
Delimit Scope comp_scope with comp.
Notation "x <- c ;; k" := (bind c (fun x => k))
  (at level 61, c at next level, right associativity) : comp_scope.
Notation "c ;; k" := (bind c (fun _ => k))
  (at level 61, right associativity) : comp_scope.
Local Open Scope comp_scope.

(** A C++ object with automatic storage: the constructor runs at the
    declaration, the destructor when the block is left by its end or by
    [return].  A [longjmp] out of the block skips the destructor. *)
Definition scoped {S T A : Type}
    (ctor : comp S T) (dtor : T -> comp S unit) (body : comp S A) : comp S A :=
  x <- ctor ;;
  a <- body ;;
  dtor x ;;
  ret a.

(** Run a computation on one component of a larger state. *)
Definition zoom {S U A : Type}
    (get : U -> S) (put : S -> U -> U) (c : comp S A) : comp U A :=
  fun u =>
    match c (get u) with
    | Done a s => Done a (put s u)
    | LongJmp s => LongJmp (put s u)
    | Blocked => Blocked
    end.

(** ** [class EventPollingSignal] *)

(** The two data members.  [mutex_] is a [tthread::mutex]; the model keeps
    the thread that holds it, [None] when it is free (the owner is only
    there to say who is inside; [tthread::mutex] does not store it). *)
Record EventPollingSignal : Type := mkEventPollingSignal {
  mutex_ : option thread;
  pollingRequested_ : bool
}.

(** [EventPollingSignal() : pollingRequested_(true) {}] *)
Definition EventPollingSignal_ctor : EventPollingSignal :=
  {| mutex_ := None; pollingRequested_ := true |}.

(** The signal between calls, when no thread is inside one: the mutex is
    free and the flag holds [b]. *)
Definition idle_signal (b : bool) : EventPollingSignal :=
  {| mutex_ := None; pollingRequested_ := b |}.

(** Modelled from the spec: [tthread::mutex] and [tthread::lock_guard]
    come from [tinythread.h], which is not among the sources.  The spec
    asks that the flag be read and written under mutual exclusion, so
    [lock] succeeds when the mutex is free and otherwise makes the caller
    wait. *)
Definition mutex_lock (t : thread) (s : EventPollingSignal)
    : option EventPollingSignal :=
  match mutex_ s with
  | None => Some {| mutex_ := Some t; pollingRequested_ := pollingRequested_ s |}
  | Some _ => None
  end.

(** Modelled from the spec: [unlock] of the mutex of [tinythread.h] frees
    it. *)
Definition mutex_unlock (s : EventPollingSignal) : EventPollingSignal :=
  {| mutex_ := None; pollingRequested_ := pollingRequested_ s |}.

(** [pollingRequested_ = b;] *)
Definition set_pollingRequested (b : bool) (s : EventPollingSignal)
    : EventPollingSignal :=
  {| mutex_ := mutex_ s; pollingRequested_ := b |}.

(** Modelled from the spec: the [lock_guard] of [tinythread.h], declared
    as [tthread::lock_guard<tthread::mutex> lock(mutex_);], locks in its
    constructor and unlocks in its destructor. *)
Definition lock_guard_ctor (t : thread) : comp EventPollingSignal unit :=
  fun s =>
    match mutex_lock t s with
    | Some s' => Done tt s'
    | None => Blocked
    end.

Definition lock_guard_dtor (_ : unit) : comp EventPollingSignal unit :=
  fun s => Done tt (mutex_unlock s).

Definition read_pollingRequested : comp EventPollingSignal bool :=
  fun s => Done (pollingRequested_ s) s.

Definition write_pollingRequested (b : bool) : comp EventPollingSignal unit :=
  fun s => Done tt (set_pollingRequested b s).

(** [void requestPolling()], called by thread [t]. *)
Definition requestPolling (t : thread) : comp EventPollingSignal unit :=
  scoped (lock_guard_ctor t) lock_guard_dtor
    (write_pollingRequested true).

(** [bool collectRequest()], called by thread [t]. *)
Definition collectRequest (t : thread) : comp EventPollingSignal bool :=
  scoped (lock_guard_ctor t) lock_guard_dtor
    (requested <- read_pollingRequested ;;
     write_pollingRequested false ;;
     ret requested).

(** [n] calls of [requestPolling] in a row. *)
Fixpoint requestPolling_times (n : nat) (t : thread)
    : comp EventPollingSignal unit :=
  match n with
  | O => ret tt
  | S n' => requestPolling t ;; requestPolling_times n' t
  end.

(** [n] calls of [collectRequest] in a row, with the values they returned. *)
Fixpoint collectRequest_times (n : nat) (t : thread)
    : comp EventPollingSignal (list bool) :=
  match n with
  | O => ret []
  | S n' =>
      b <- collectRequest t ;;
      bs <- collectRequest_times n' t ;;
      ret (b :: bs)
  end.

(** ** The host (R) side *)

(** [Rboolean] of [R_ext/Boolean.h]. *)
Inductive Rboolean : Type :=
| FALSE
| TRUE.

Section Host.

(** Whatever else the R session holds; the event loop never looks at it. *)
Variable Host : Type.

(** The state of R that [pollForEvents] touches: the flag that suspends
    the delivery of interrupts, and the rest. *)
Record R_state : Type := mkR_state {
  interrupts_suspended : bool;
  R_session : Host
}.

Definition set_interrupts_suspended (b : bool) (r : R_state) : R_state :=
  {| interrupts_suspended := b; R_session := R_session r |}.

(** What a call into R does: it returns, or an R error jumps out of it. *)
Inductive outcome : Type :=
| Returns (r : R_state)
| Jumps (r : R_state).

(** [extern void R_ProcessEvents();] is R's own: any function will do. *)
Variable R_ProcessEvents : R_state -> outcome.

(** [void processEvents(...) { R_ProcessEvents(); }] *)
Definition processEvents : comp R_state unit :=
  fun r =>
    match R_ProcessEvents r with
    | Returns r' => Done tt r'
    | Jumps r' => LongJmp r'
    end.

(** [R_ToplevelExec] is R's own, declared [extern] in the source: it
    takes a function and its argument and returns an [Rboolean].  It runs
    the function in a top-level context that contains any non-local exit,
    and gives [TRUE] when the function returned, [FALSE] when a jump was
    caught. *)
Definition R_ToplevelExec {S : Type} (func : comp S unit) : comp S Rboolean :=
  fun s =>
    match func s with
    | Done _ s' => Done TRUE s'
    | LongJmp s' => Done FALSE s'
    | Blocked => Blocked
    end.

(** Modelled from the spec: the scope object of [signals.h], which is not
    among the sources, keeps the suspension state it found. *)
Record InterruptsSuspendedScope : Type := mkInterruptsSuspendedScope {
  suspended_ : bool
}.

(** Modelled from the spec: [reticulate::signals::InterruptsSuspendedScope]
    is declared in [signals.h], which is not among the sources.  The spec
    describes it as an acquire/release pair, acquired on scope entry and
    released on scope exit, that disables the delivery of interrupts for its
    duration and restores the suspension state it found.  The constructor
    remembers the current state and suspends. *)
Definition InterruptsSuspendedScope_ctor (r : R_state)
    : InterruptsSuspendedScope * R_state :=
  ({| suspended_ := interrupts_suspended r |},
   set_interrupts_suspended true r).

(** Modelled from the spec: the destructor of the scope of [signals.h] puts
    back the state the constructor found. *)
Definition InterruptsSuspendedScope_dtor
    (scope : InterruptsSuspendedScope) (r : R_state) : R_state :=
  set_interrupts_suspended (suspended_ scope) r.

(** Everything [pollForEvents] can reach: the file-level object
    [EventPollingSignal s_pollingSignal;] and the state of R. *)
Record World : Type := mkWorld {
  s_pollingSignal : EventPollingSignal;
  R : R_state
}.

Definition set_s_pollingSignal (s : EventPollingSignal) (w : World) : World :=
  {| s_pollingSignal := s; R := R w |}.

Definition set_R (r : R_state) (w : World) : World :=
  {| s_pollingSignal := s_pollingSignal w; R := r |}.

Definition on_signal {A : Type} (c : comp EventPollingSignal A) : comp World A :=
  zoom s_pollingSignal set_s_pollingSignal c.

Definition on_R {A : Type} (c : comp R_state A) : comp World A :=
  zoom R set_R c.

(** [int pollForEvents(...)], run by the main interpreter thread.
    [DBG] prints when tracing is compiled in and is left out. *)
Definition pollForEvents : comp World Z :=
  scoped
    (on_R (fun r => let (scope, r') := InterruptsSuspendedScope_ctor r in
                    Done scope r'))
    (fun scope => on_R (fun r => Done tt (InterruptsSuspendedScope_dtor scope r)))
    (on_R (R_ToplevelExec processEvents) ;;
     on_signal (requestPolling Main) ;;
     ret 0%Z).

End Host.

Arguments mkR_state {Host} _ _.
Arguments interrupts_suspended {Host} _.
Arguments R_session {Host} _.
Arguments set_interrupts_suspended {Host} _ _.
Arguments Returns {Host} _.
Arguments Jumps {Host} _.
Arguments processEvents {Host} _ _.
Arguments InterruptsSuspendedScope_ctor {Host} _.
Arguments InterruptsSuspendedScope_dtor {Host} _ _.
Arguments mkWorld {Host} _ _.
Arguments s_pollingSignal {Host} _.
Arguments R {Host} _.
Arguments set_s_pollingSignal {Host} _ _.
Arguments set_R {Host} _ _.
Arguments on_signal {Host A} _ _.
Arguments on_R {Host A} _ _.
Arguments pollForEvents {Host} _ _.

(** ** The two threads, statement by statement *)

(** Where [eventPollingWorker] stands: before [sleep_for] (the head of the
    [while (true)] loop), then inside the call of [collectRequest] (the
    [lock_guard], the read of [pollingRequested_], the write of [false],
    the return that releases the lock), then at the [if], then before
    [Py_AddPendingCall]. *)
Inductive worker_pc : Type :=
| W_sleep
| W_lock
| W_load
| W_store
| W_unlock
| W_test
| W_inject.

(** Where the main interpreter thread stands: outside [pollForEvents],
    then at the declaration of the scope, at [R_ToplevelExec], inside the
    call of [requestPolling] (the [lock_guard], the write of [true], the
    return that releases the lock), and at [return 0]. *)
Inductive main_pc : Type :=
| M_idle
| M_scope
| M_exec
| M_lock
| M_store
| M_unlock
| M_return.

(** What the threads do that can be seen from outside: the worker slept,
    [collectRequest] returned a value, the worker called
    [Py_AddPendingCall(pollForEvents, NULL)], Python called
    [pollForEvents], [requestPolling] returned, [pollForEvents] returned a
    status. *)
Inductive event : Type :=
| EvSleep (ms : Z)
| EvCollect (requested : bool)
| EvAddPendingCall
| EvPollEnter
| EvRequest
| EvPollReturn (status : Z).

Section Interleaving.

Variable Host : Type.
Variable R_ProcessEvents : R_state Host -> outcome Host.

(** The shared world, the program counter and the locals of each thread,
    and the history of events, oldest first. *)
Record state : Type := mkState {
  world : World Host;
  w_pc : worker_pc;
  w_requested : bool;
  m_pc : main_pc;
  m_scope : InterruptsSuspendedScope;
  history : list event
}.

Definition signal (st : state) : EventPollingSignal :=
  s_pollingSignal (world st).

Definition with_signal (s : EventPollingSignal) (st : state) : state :=
  {| world := set_s_pollingSignal s (world st);
     w_pc := w_pc st; w_requested := w_requested st;
     m_pc := m_pc st; m_scope := m_scope st; history := history st |}.

Definition with_R (r : R_state Host) (st : state) : state :=
  {| world := set_R r (world st);
     w_pc := w_pc st; w_requested := w_requested st;
     m_pc := m_pc st; m_scope := m_scope st; history := history st |}.

Definition worker_goto (pc : worker_pc) (st : state) : state :=
  {| world := world st;
     w_pc := pc; w_requested := w_requested st;
     m_pc := m_pc st; m_scope := m_scope st; history := history st |}.

Definition with_w_requested (b : bool) (st : state) : state :=
  {| world := world st;
     w_pc := w_pc st; w_requested := b;
     m_pc := m_pc st; m_scope := m_scope st; history := history st |}.

Definition main_goto (pc : main_pc) (st : state) : state :=
  {| world := world st;
     w_pc := w_pc st; w_requested := w_requested st;
     m_pc := pc; m_scope := m_scope st; history := history st |}.

Definition with_m_scope (scope : InterruptsSuspendedScope) (st : state) : state :=
  {| world := world st;
     w_pc := w_pc st; w_requested := w_requested st;
     m_pc := m_pc st; m_scope := scope; history := history st |}.

Definition log (e : event) (st : state) : state :=
  {| world := world st;
     w_pc := w_pc st; w_requested := w_requested st;
     m_pc := m_pc st; m_scope := m_scope st; history := history st ++ [e] |}.

(** One statement of [eventPollingWorker], with [collectRequest] inlined.
    A thread that asks for a held mutex waits: the step changes nothing. *)
Definition eventPollingWorker_step (st : state) : state :=
  match w_pc st with
  | W_sleep =>
      log (EvSleep 250) (worker_goto W_lock st)
  | W_lock =>
      match mutex_lock Worker (signal st) with
      | Some s' => worker_goto W_load (with_signal s' st)
      | None => st
      end
  | W_load =>
      worker_goto W_store (with_w_requested (pollingRequested_ (signal st)) st)
  | W_store =>
      worker_goto W_unlock (with_signal (set_pollingRequested false (signal st)) st)
  | W_unlock =>
      log (EvCollect (w_requested st))
        (worker_goto W_test (with_signal (mutex_unlock (signal st)) st))
  | W_test =>
      worker_goto (if w_requested st then W_inject else W_sleep) st
  | W_inject =>
      log EvAddPendingCall (worker_goto W_sleep st)
  end.

(** One statement of the main interpreter thread.  From [M_idle] Python
    starts the pending call; nothing here ties that to an earlier
    [Py_AddPendingCall], so the model allows at least what the interpreter
    does.  A jump that [R_ToplevelExec] let through would leave
    [pollForEvents] on the spot. *)
Definition pollForEvents_step (st : state) : state :=
  match m_pc st with
  | M_idle =>
      log EvPollEnter (main_goto M_scope st)
  | M_scope =>
      let (scope, r') := InterruptsSuspendedScope_ctor (R (world st)) in
      main_goto M_exec (with_m_scope scope (with_R r' st))
  | M_exec =>
      match R_ToplevelExec (processEvents R_ProcessEvents) (R (world st)) with
      | Done _ r' => main_goto M_lock (with_R r' st)
      | LongJmp r' => main_goto M_idle (with_R r' st)
      | Blocked => st
      end
  | M_lock =>
      match mutex_lock Main (signal st) with
      | Some s' => main_goto M_store (with_signal s' st)
      | None => st
      end
  | M_store =>
      main_goto M_unlock (with_signal (set_pollingRequested true (signal st)) st)
  | M_unlock =>
      log EvRequest
        (main_goto M_return (with_signal (mutex_unlock (signal st)) st))
  | M_return =>
      log (EvPollReturn 0)
        (main_goto M_idle
           (with_R (InterruptsSuspendedScope_dtor (m_scope st) (R (world st))) st))
  end.

Definition step (t : thread) (st : state) : state :=
  match t with
  | Worker => eventPollingWorker_step st
  | Main => pollForEvents_step st
  end.

(** A schedule names the thread that takes each next step. *)
Definition run (sched : list thread) (st : state) : state :=
  fold_left (fun st' t => step t st') sched st.

(** The state once the static object [s_pollingSignal] is constructed and
    [initialize] has started the worker: [r0] is the state of R then. *)
Definition initialize (r0 : R_state Host) : state :=
  {| world := {| s_pollingSignal := EventPollingSignal_ctor; R := r0 |};
     w_pc := W_sleep; w_requested := false;
     m_pc := M_idle; m_scope := {| suspended_ := false |};
     history := [] |}.

(** The next statement of thread [t] reads or writes [pollingRequested_]. *)
Definition accesses_flag (t : thread) (st : state) : bool :=
  match t with
  | Worker =>
      match w_pc st with
      | W_load | W_store => true
      | _ => false
      end
  | Main =>
      match m_pc st with
      | M_store => true
      | _ => false
      end
  end.

End Interleaving.

Arguments mkState {Host} _ _ _ _ _ _.
Arguments world {Host} _.
Arguments w_pc {Host} _.
Arguments w_requested {Host} _.
Arguments m_pc {Host} _.
Arguments m_scope {Host} _.
Arguments history {Host} _.
Arguments signal {Host} _.
Arguments with_signal {Host} _ _.
Arguments with_R {Host} _ _.
Arguments worker_goto {Host} _ _.
Arguments with_w_requested {Host} _ _.
Arguments main_goto {Host} _ _.
Arguments with_m_scope {Host} _ _.
Arguments log {Host} _ _.
Arguments eventPollingWorker_step {Host} _.
Arguments pollForEvents_step {Host} _ _.
Arguments step {Host} _ _ _.
Arguments run {Host} _ _ _.
Arguments initialize {Host} _.
Arguments accesses_flag {Host} _ _.

(** ** Reading a history *)

Definition is_injection (e : event) : bool :=
  match e with
  | EvAddPendingCall => true
  | _ => false
  end.

Definition is_request (e : event) : bool :=
  match e with
  | EvRequest => true
  | _ => false
  end.

Definition is_collect (e : event) : bool :=
  match e with
  | EvCollect _ => true
  | _ => false
  end.

Definition is_true_collect (e : event) : bool :=
  match e with
  | EvCollect true => true
  | _ => false
  end.

Definition is_poll_enter (e : event) : bool :=
  match e with
  | EvPollEnter => true
  | _ => false
  end.

Definition is_poll_return (e : event) : bool :=
  match e with
  | EvPollReturn _ => true
  | _ => false
  end.

(** [pollForEvents] returned a status other than [0]. *)
Definition is_failed_return (e : event) : bool :=
  match e with
  | EvPollReturn status => negb (status =? 0)%Z
  | _ => false
  end.

(** The events of the worker thread. *)
Definition is_worker_event (e : event) : bool :=
  match e with
  | EvSleep _ | EvCollect _ | EvAddPendingCall => true
  | EvPollEnter | EvRequest | EvPollReturn _ => false
  end.

Definition count (p : event -> bool) (h : list event) : nat :=
  length (filter p h).

(** The calls of [requestPolling] in [h] since the last [collectRequest]
    in [h]: the requests no collect has consumed yet. *)
Definition unconsumed_requests (h : list event) : nat :=
  fold_left
    (fun n e =>
       match e with
       | EvRequest => S n
       | EvCollect _ => O
       | _ => n
       end)
    h O.

(** The flag after the calls of history [h] on a fresh signal: set when
    a request came after the last collect, or when no collect has taken
    the constructor's [true] yet. *)
Definition flag_after (h : list event) : bool :=
  (0 <? unconsumed_requests h) || (count is_collect h =? 0).

(** What one turn of the loop of [eventPollingWorker] does when its
    [collectRequest] returns [b]. *)
Definition iteration_actions (b : bool) : list event :=
  [EvSleep 250; EvCollect b] ++ (if b then [EvAddPendingCall] else []).

(** [l] is a beginning of [l'] and not all of it. *)
Definition proper_prefix (l l' : list event) : Prop :=
  exists rest, rest <> [] /\ l' = l ++ rest.

(** A history read as calls on one signal by one caller after the other:
    the signal after the calls, or [None] when some [collectRequest] of
    the history did not return what the sequential call returns there. *)
Definition apply_event (acc : option EventPollingSignal) (e : event)
    : option EventPollingSignal :=
  match acc with
  | None => None
  | Some s =>
      match e with
      | EvCollect b =>
          match collectRequest Worker s with
          | Done b' s' => if Bool.eqb b b' then Some s' else None
          | _ => None
          end
      | EvRequest =>
          match requestPolling Main s with
          | Done _ s' => Some s'
          | _ => None
          end
      | _ => Some s
      end
  end.

Definition replay (h : list event) : option EventPollingSignal :=
  fold_left apply_event h (Some EventPollingSignal_ctor).

(** The state of R that a call into R leaves behind, either way. *)
Definition R_after {Host : Type} (o : outcome Host) : R_state Host :=
  match o with
  | Returns r => r
  | Jumps r => r
  end.

(** ** Invariants of the interleaving *)

Definition worker_holds (pc : worker_pc) : bool :=
  match pc with
  | W_load | W_store | W_unlock => true
  | _ => false
  end.

Definition main_holds (pc : main_pc) : bool :=
  match pc with
  | M_store | M_unlock => true
  | _ => false
  end.

(** The thread that is between its [lock_guard] and the release. *)
Definition holder {Host : Type} (st : state Host) : option thread :=
  if worker_holds (w_pc st) then Some Worker
  else if main_holds (m_pc st) then Some Main
  else None.

(** The mutex is held by the thread inside its critical section, the two
    threads are never both inside, and inside the critical sections the
    flag and the local [requested] are what the statements already run
    made them. *)
Record consistent {Host : Type} (st : state Host) : Prop := mkConsistent {
  mutex_holder : mutex_ (signal st) = holder st;
  exclusive : worker_holds (w_pc st) && main_holds (m_pc st) = false;
  read_stable :
    w_pc st = W_store -> w_requested st = pollingRequested_ (signal st);
  cleared : w_pc st = W_unlock -> pollingRequested_ (signal st) = false;
  armed : m_pc st = M_unlock -> pollingRequested_ (signal st) = true
}.

(** The flag of the signal as the calls completed so far left it: a call
    under way has not happened yet. *)
Definition abstract_flag {Host : Type} (st : state Host) (a : bool) : Prop :=
  match w_pc st, m_pc st with
  | W_unlock, _ => a = w_requested st
  | _, M_unlock => True
  | _, _ => a = pollingRequested_ (signal st)
  end.

(** The calls completed so far, in the order of their returns, are a run
    of the signal used by one caller at a time. *)
Definition linearized {Host : Type} (st : state Host) : Prop :=
  exists a, replay (history st) = Some (idle_signal a) /\ abstract_flag st a.

(** The events of the turn of the loop the worker is in. *)
Definition partial_iteration {Host : Type} (st : state Host) : list event :=
  match w_pc st with
  | W_sleep => []
  | W_lock | W_load | W_store | W_unlock => [EvSleep 250]
  | W_test => if w_requested st then [EvSleep 250; EvCollect true] else []
  | W_inject => [EvSleep 250; EvCollect true]
  end.

(** The requests that can still lead to a call of [Py_AddPendingCall]:
    the flag when it is set (one request, however many calls set it), and
    the [true] the worker holds between its [collectRequest] and its
    [Py_AddPendingCall]. *)
Definition flag_credit {Host : Type} (st : state Host) : nat :=
  match m_pc st with
  | M_unlock => 0
  | _ => if pollingRequested_ (signal st) then 1 else 0
  end.

Definition collect_credit {Host : Type} (st : state Host) : nat :=
  match w_pc st with
  | W_unlock => if w_requested st then 1 else 0
  | _ => 0
  end.

Definition worker_credit {Host : Type} (st : state Host) : nat :=
  match w_pc st with
  | W_unlock | W_test => if w_requested st then 1 else 0
  | W_inject => 1
  | _ => 0
  end.

(** The worker's events so far are whole turns of its loop, then the
    events of the turn it is in. *)
Definition well_shaped {Host : Type} (st : state Host) : Prop :=
  exists bs,
    filter is_worker_event (history st) =
    concat (map iteration_actions bs) ++ partial_iteration st.

(** Every call of [Py_AddPendingCall] made, and every one that can still
    come without a new request, is paid for by a [requestPolling] that
    returned or by the flag the constructor set. *)
Definition injections_paid {Host : Type} (st : state Host) : Prop :=
  count is_injection (history st) + worker_credit st + flag_credit st <=
  count is_request (history st) + 1.

(** The same account for the calls of [collectRequest] that returned
    [true]. *)
Definition collects_paid {Host : Type} (st : state Host) : Prop :=
  count is_true_collect (history st) + collect_credit st + flag_credit st <=
  count is_request (history st) + 1.

(** Every call of [pollForEvents] that Python made has returned, or is
    the one under way; every return came after the [requestPolling] of its
    call; and no return gave a status other than [0]. *)
Definition callbacks_accounted {Host : Type} (st : state Host) : Prop :=
  count is_poll_enter (history st) =
  count is_poll_return (history st) +
  match m_pc st with M_idle => 0 | _ => 1 end /\
  count is_request (history st) =
  count is_poll_return (history st) +
  match m_pc st with M_return => 1 | _ => 0 end /\
  count is_failed_return (history st) = 0.

(** Between two calls of [pollForEvents] the suspension of interrupts is
    what it was in [r0]; inside a call the scope holds that value, and the
    event hook is entered with the interrupts suspended. *)
Definition suspension_scoped {Host : Type}
    (r0 : R_state Host) (st : state Host) : Prop :=
  match m_pc st with
  | M_idle | M_scope =>
      interrupts_suspended (R (world st)) = interrupts_suspended r0
  | M_exec =>
      suspended_ (m_scope st) = interrupts_suspended r0 /\
      interrupts_suspended (R (world st)) = true
  | _ =>
      suspended_ (m_scope st) = interrupts_suspended r0
  end.

(** The events still to come from the call of [pollForEvents] under way. *)
Definition remaining_events (pc : main_pc) : list event :=
  match pc with
  | M_idle => []
  | M_return => [EvPollReturn 0]
  | _ => [EvRequest; EvPollReturn 0]
  end.

(** Nothing is left that could make the worker call [Py_AddPendingCall]:
    the flag is clear and the worker holds no [true]. *)
Definition quiescent {Host : Type} (st : state Host) : Prop :=
  pollingRequested_ (signal st) = false /\
  worker_credit st = 0 /\
  (w_pc st = W_store -> w_requested st = false).

(** ** Two hosts to run the model on *)

(** A session with nothing in it, and an event hook that fails every time,
    leaving the interrupts enabled behind it. *)
Definition r_enabled : R_state unit :=
  {| interrupts_suspended := false; R_session := tt |}.

Definition r_suspended : R_state unit :=
  {| interrupts_suspended := true; R_session := tt |}.

Definition failing_hook (r : R_state unit) : outcome unit :=
  Jumps (set_interrupts_suspended false r).

Definition quiet_hook (r : R_state unit) : outcome unit :=
  Returns r.

(** A session that holds one boolean, with the interrupts enabled, and an
    event hook that writes into the session whether it was entered with
    the interrupts suspended, leaves them suspended, and fails. *)
Definition r_fresh : R_state bool :=
  {| interrupts_suspended := false; R_session := false |}.

Definition recording_hook (r : R_state bool) : outcome bool :=
  Jumps {| interrupts_suspended := true;
           R_session := interrupts_suspended r |}.

Definition world_enabled : World bool :=
  {| s_pollingSignal := idle_signal false; R := r_fresh |}.

(** The world before a call of [pollForEvents]: the signal drained and
    the interrupts suspended by the caller. *)
Definition world_drained : World unit :=
  {| s_pollingSignal := idle_signal false; R := r_suspended |}.

(** The worker alone for one turn, the callback once, the worker alone for
    most of a second turn. *)
Definition two_turns : list thread :=
  repeat Worker 7 ++ repeat Main 7 ++ repeat Worker 5.

(** ** More ways to read a history *)

(** The times the worker slept its 250 ms since its last call of
    [Py_AddPendingCall] in [h] (since the start when there is none). *)
Definition sleeps_since_injection (h : list event) : nat :=
  fold_left
    (fun n e =>
       match e with
       | EvSleep ms => if (ms =? 250)%Z then S n else n
       | EvAddPendingCall => O
       | _ => n
       end)
    h O.

(** The same count, or [None] once some [Py_AddPendingCall] of the history
    came with no such sleep before it. *)
Definition throttle_event (acc : option nat) (e : event) : option nat :=
  match acc with
  | None => None
  | Some n =>
      match e with
      | EvSleep ms => Some (if (ms =? 250)%Z then S n else n)
      | EvAddPendingCall =>
          match n with
          | O => None
          | S _ => Some O
          end
      | _ => Some n
      end
  end.

Definition throttled (h : list event) : option nat :=
  fold_left throttle_event h (Some O).

(** The worker runs a whole turn of its loop that finds the flag set, then
    the main thread runs the callback once; [rounds n] is that [n] times. *)
Definition round : list thread :=
  repeat Worker 7 ++ repeat Main 7.

Definition rounds (n : nat) : list thread :=
  concat (repeat round n).

Definition round_events : list event :=
  iteration_actions true ++ [EvPollEnter; EvRequest; EvPollReturn 0].

(** Both threads are between calls and the signal is armed. *)
Definition armed_and_idle {Host : Type} (st : state Host) : Prop :=
  w_pc st = W_sleep /\
  m_pc st = M_idle /\
  signal st = idle_signal true.

(** Every [Py_AddPendingCall] so far came after a sleep of its own, and
    a worker inside a turn has slept in it. *)
Definition throttle_kept {Host : Type} (st : state Host) : Prop :=
  exists n,
    throttled (history st) = Some n /\
    (w_pc st <> W_sleep -> 1 <= n).

Definition worker_pc_eq_dec (a b : worker_pc) : {a = b} + {a <> b}.
Proof.
  decide equality.
Defined.

(** ** [initialize], called any number of times *)

(** Who acts next when [initialize] may be called more than once: one of
    the workers started so far, the main interpreter thread inside or at
    the start of [pollForEvents], or a caller of [initialize]. *)
Inductive actor : Type :=
| Worker_thread (i : nat)
| Main_thread
| Call_initialize.

Section Pool.

Variable Host : Type.
Variable R_ProcessEvents : R_state Host -> outcome Host.

(** The shared world, every worker thread with where it stands in
    [eventPollingWorker] and its local [requested], the main thread, and
    the history. *)
Record pool : Type := mkPool {
  p_world : World Host;
  p_workers : list (worker_pc * bool);
  p_m_pc : main_pc;
  p_m_scope : InterruptsSuspendedScope;
  p_history : list event
}.

(** The library is loaded: the static object [s_pollingSignal] is
    constructed and no thread has been started. *)
Definition loaded (r0 : R_state Host) : pool :=
  {| p_world := {| s_pollingSignal := EventPollingSignal_ctor; R := r0 |};
     p_workers := [];
     p_m_pc := M_idle;
     p_m_scope := {| suspended_ := false |};
     p_history := [] |}.

(** [void initialize()]: [tthread::thread t(eventPollingWorker, NULL);
    t.detach();] starts one more thread at the top of
    [eventPollingWorker] and keeps no handle on it. *)
Definition initialize_call (p : pool) : pool :=
  {| p_world := p_world p;
     p_workers := p_workers p ++ [(W_sleep, false)];
     p_m_pc := p_m_pc p;
     p_m_scope := p_m_scope p;
     p_history := p_history p |}.

(** The pool as the two-thread state of the worker [w]. *)
Definition as_state (p : pool) (w : worker_pc * bool) : state Host :=
  {| world := p_world p;
     w_pc := fst w; w_requested := snd w;
     m_pc := p_m_pc p; m_scope := p_m_scope p;
     history := p_history p |}.

Fixpoint put_worker (i : nat) (w : worker_pc * bool)
    (ws : list (worker_pc * bool)) : list (worker_pc * bool) :=
  match ws with
  | [] => []
  | w0 :: ws' =>
      match i with
      | O => w :: ws'
      | S i' => w0 :: put_worker i' w ws'
      end
  end.

(** One step of the pool: worker [i] runs its next statement of
    [eventPollingWorker] (a number that names no worker does nothing), the
    main thread runs its next statement, or [initialize] is called. *)
Definition pool_step (a : actor) (p : pool) : pool :=
  match a with
  | Worker_thread i =>
      match nth_error (p_workers p) i with
      | Some w =>
          let st := eventPollingWorker_step (as_state p w) in
          {| p_world := world st;
             p_workers := put_worker i (w_pc st, w_requested st) (p_workers p);
             p_m_pc := m_pc st;
             p_m_scope := m_scope st;
             p_history := history st |}
      | None => p
      end
  | Main_thread =>
      let st := pollForEvents_step R_ProcessEvents (as_state p (W_sleep, false)) in
      {| p_world := world st;
         p_workers := p_workers p;
         p_m_pc := m_pc st;
         p_m_scope := m_scope st;
         p_history := history st |}
  | Call_initialize => initialize_call p
  end.

Definition pool_run (acts : list actor) (p : pool) : pool :=
  fold_left (fun p' a => pool_step a p') acts p.

(** The two-thread state as a pool with its one worker. *)
Definition pool_of_state (st : state Host) : pool :=
  {| p_world := world st;
     p_workers := [(w_pc st, w_requested st)];
     p_m_pc := m_pc st;
     p_m_scope := m_scope st;
     p_history := history st |}.

End Pool.

Arguments mkPool {Host} _ _ _ _ _.
Arguments p_world {Host} _.
Arguments p_workers {Host} _.
Arguments p_m_pc {Host} _.
Arguments p_m_scope {Host} _.
Arguments p_history {Host} _.
Arguments loaded {Host} _.
Arguments initialize_call {Host} _.
Arguments as_state {Host} _ _.
Arguments pool_step {Host} _ _ _.
Arguments pool_run {Host} _ _ _.
Arguments pool_of_state {Host} _.

Definition actor_of_thread (t : thread) : actor :=
  match t with
  | Worker => Worker_thread 0
  | Main => Main_thread
  end.

Definition is_initialize (a : actor) : bool :=
  match a with
  | Call_initialize => true
  | _ => false
  end.

(** The workers between their [lock_guard] and its release. *)
Definition inside (ws : list (worker_pc * bool)) : nat :=
  length (filter (fun w => worker_holds (fst w)) ws).

(** The [true] a worker holds between its [collectRequest] and its
    [Py_AddPendingCall]. *)
Definition pair_credit (w : worker_pc * bool) : nat :=
  match fst w with
  | W_unlock | W_test => if snd w then 1 else 0
  | W_inject => 1
  | _ => 0
  end.

(** The [true] a worker holds once its [collectRequest] has returned it. *)
Definition returned_credit (w : worker_pc * bool) : nat :=
  match fst w with
  | W_test => if snd w then 1 else 0
  | W_inject => 1
  | _ => 0
  end.

Definition returned_credits (ws : list (worker_pc * bool)) : nat :=
  list_sum (map returned_credit ws).

(** All the [true] the workers hold. *)
Definition credits (ws : list (worker_pc * bool)) : nat :=
  list_sum (map pair_credit ws).

Definition pool_flag {Host : Type} (p : pool Host) : bool :=
  pollingRequested_ (s_pollingSignal (p_world p)).

Definition pool_mutex {Host : Type} (p : pool Host) : option thread :=
  mutex_ (s_pollingSignal (p_world p)).

(** What every interleaving of the pool keeps: the mutex is held exactly
    when one thread is inside its critical section, and then by it; a
    worker about to write [false] has read the flag as it is; and the
    injections made, with the requests still on their way to one, are paid
    for by the calls of [requestPolling] that returned and the one [true]
    of the constructor. *)
Record pool_inv {Host : Type} (p : pool Host) : Prop := mkPoolInv {
  pi_mutex :
    inside (p_workers p) + (if main_holds (p_m_pc p) then 1 else 0) =
    match pool_mutex p with
    | None => 0
    | Some _ => 1
    end;
  pi_owner :
    match pool_mutex p with
    | Some Main => main_holds (p_m_pc p) = true
    | Some Worker => main_holds (p_m_pc p) = false
    | None => True
    end;
  pi_read :
    Forall (fun w => fst w = W_store -> snd w = pool_flag p) (p_workers p);
  pi_paid :
    count is_injection (p_history p) +
    credits (p_workers p) +
    flag_credit (as_state p (W_sleep, false)) <=
    count is_request (p_history p) + 1
}.

Arguments replay : simpl never.
Arguments count : simpl never.
Arguments throttled : simpl never.
Arguments inside : simpl never.
Arguments credits : simpl never.
Arguments returned_credits : simpl never.

(** * Theorems *)

(** ** The signal, one caller at a time *)

Lemma bind_Done {S A B : Type} (c : comp S A) (s : S) {a : A} {s' : S}
    (k : A -> comp S B) :
  c s = Done a s' -> bind c k s = k a s'.
Proof.
  unfold bind; intros ->; reflexivity.
Qed.

Lemma idle_signal_eq (s : EventPollingSignal) :
  mutex_ s = None -> s = idle_signal (pollingRequested_ s).
Proof.
  destruct s as [m b]; simpl; intros ->; reflexivity.
Qed.

Lemma requestPolling_idle (t : thread) (b : bool) :
  requestPolling t (idle_signal b) = Done tt (idle_signal true).
Proof. reflexivity. Qed.

Lemma collectRequest_idle (t : thread) (b : bool) :
  collectRequest t (idle_signal b) = Done b (idle_signal false).
Proof. reflexivity. Qed.

Lemma requestPolling_held (t t' : thread) (s : EventPollingSignal) :
  mutex_ s = Some t' -> requestPolling t s = Blocked.
Proof.
  destruct s as [m b]; simpl; intros ->; reflexivity.
Qed.

Lemma collectRequest_held (t t' : thread) (s : EventPollingSignal) :
  mutex_ s = Some t' -> collectRequest t s = Blocked.
Proof.
  destruct s as [m b]; simpl; intros ->; reflexivity.
Qed.

Lemma requestPolling_times_idle (t : thread) (n : nat) (b : bool) :
  requestPolling_times (S n) t (idle_signal b) = Done tt (idle_signal true).
Proof.
  revert b; induction n as [|n IH]; intros b.
  - reflexivity.
  - change (requestPolling_times (S (S n)) t)
      with (requestPolling t ;; requestPolling_times (S n) t).
    rewrite (bind_Done (requestPolling t) (idle_signal b) _ (requestPolling_idle t b)).
    apply IH.
Qed.

Lemma collectRequest_times_drained (t : thread) (n : nat) :
  collectRequest_times n t (idle_signal false) =
  Done (repeat false n) (idle_signal false).
Proof.
  induction n as [|n IH]; [reflexivity|].
  cbn [collectRequest_times].
  rewrite (bind_Done (collectRequest t) (idle_signal false) _ (collectRequest_idle t false)).
  rewrite (bind_Done (collectRequest_times n t) (idle_signal false) _ IH).
  reflexivity.
Qed.

Lemma collectRequest_times_idle (t : thread) (n : nat) (b : bool) :
  collectRequest_times (S n) t (idle_signal b) =
  Done (b :: repeat false n) (idle_signal false).
Proof.
  cbn [collectRequest_times].
  rewrite (bind_Done (collectRequest t) (idle_signal b) _ (collectRequest_idle t b)).
  rewrite (bind_Done (collectRequest_times n t) (idle_signal false) _ (collectRequest_times_drained t n)).
  reflexivity.
Qed.

(** C1.  [collectRequest] is a test-and-clear: called on a signal in any
    state whose mutex is free, it returns, the value returned is the flag
    as it was just before the call, and afterwards the flag is [false]
    (and the mutex is free again). *)
Theorem collectRequest_test_and_clear (t : thread) (s : EventPollingSignal) :
  mutex_ s = None ->
  exists s',
    collectRequest t s = Done (pollingRequested_ s) s' /\
    pollingRequested_ s' = false /\
    mutex_ s' = None.
Proof.
  intros Hfree.
  rewrite (idle_signal_eq s Hfree).
  exists (idle_signal false).
  split; [apply collectRequest_idle | split; reflexivity].
Qed.

(** C6.  [requestPolling] sets the flag whatever it was, and is
    idempotent: from any state with the mutex free, one call or more in a
    row, with no [collectRequest] between them, end in the same state, the
    flag [true], and the [collectRequest] that follows returns the same
    value, [true]. *)
Theorem requestPolling_idempotent
    (t t' : thread) (n : nat) (s : EventPollingSignal) :
  mutex_ s = None ->
  exists s',
    requestPolling t s = Done tt s' /\
    pollingRequested_ s' = true /\
    requestPolling_times (S n) t s = requestPolling t s /\
    (requestPolling_times (S n) t ;; collectRequest t') s =
    (requestPolling t ;; collectRequest t') s /\
    exists s'', (requestPolling t ;; collectRequest t') s = Done true s''.
Proof.
  intros Hfree.
  rewrite (idle_signal_eq s Hfree).
  set (b := pollingRequested_ s).
  exists (idle_signal true).
  split; [apply requestPolling_idle|].
  split; [reflexivity|].
  split; [rewrite requestPolling_times_idle; reflexivity|].
  rewrite (bind_Done (requestPolling_times (S n) t) (idle_signal b) _ (requestPolling_times_idle t n b)).
  rewrite (bind_Done (requestPolling t) (idle_signal b) _ (requestPolling_idle t b)).
  split; [reflexivity|].
  exists (idle_signal false).
  apply collectRequest_idle.
Qed.

(** C7.  Three calls of [requestPolling] in a row collapse into one
    request: from any state with the mutex free, of the calls of
    [collectRequest] that follow, the first returns [true] and the ones
    after it return [false]. *)
Theorem burst_collapse
    (t t' : thread) (n : nat) (s : EventPollingSignal) :
  mutex_ s = None ->
  exists s',
    (requestPolling t ;; requestPolling t ;; requestPolling t ;;
     collectRequest_times (S n) t') s =
    Done (true :: repeat false n) s' /\
    (requestPolling t ;; requestPolling t ;; requestPolling t ;;
     b1 <- collectRequest t' ;;
     b2 <- collectRequest t' ;;
     ret (b1, b2)) s =
    Done (true, false) s'.
Proof.
  intros Hfree.
  rewrite (idle_signal_eq s Hfree).
  set (b := pollingRequested_ s).
  exists (idle_signal false).
  rewrite (bind_Done (requestPolling t) (idle_signal b) _ (requestPolling_idle t b)).
  rewrite !(bind_Done (requestPolling t) (idle_signal true) _ (requestPolling_idle t true)).
  split; [apply collectRequest_times_idle | reflexivity].
Qed.

(** ** The callback, run on its own *)

Lemma pollForEvents_idle {Host : Type}
    (hook : R_state Host -> outcome Host) (b : bool) (r : R_state Host) :
  pollForEvents hook {| s_pollingSignal := idle_signal b; R := r |} =
  Done 0%Z
    {| s_pollingSignal := idle_signal true;
       R := set_interrupts_suspended (interrupts_suspended r)
              (R_after (hook (set_interrupts_suspended true r))) |}.
Proof.
  unfold pollForEvents, scoped, bind, on_R, on_signal, zoom,
    R_ToplevelExec, processEvents.
  cbn.
  destruct (hook (set_interrupts_suspended true r)) as [r'|r']; reflexivity.
Qed.

Lemma world_idle_eq {Host : Type} (w : World Host) :
  mutex_ (s_pollingSignal w) = None ->
  w = {| s_pollingSignal := idle_signal (pollingRequested_ (s_pollingSignal w));
         R := R w |}.
Proof.
  destruct w as [s r]; cbn; intros Hfree.
  rewrite <- (idle_signal_eq s Hfree); reflexivity.
Qed.

(** ** Invariants of every interleaving *)

Lemma run_app {Host : Type} (hook : R_state Host -> outcome Host)
    (sched sched' : list thread) (st : state Host) :
  run hook (sched ++ sched') st = run hook sched' (run hook sched st).
Proof.
  unfold run; apply fold_left_app.
Qed.

Lemma run_snoc {Host : Type} (hook : R_state Host -> outcome Host)
    (sched : list thread) (t : thread) (st : state Host) :
  run hook (sched ++ [t]) st = step hook t (run hook sched st).
Proof.
  rewrite run_app; reflexivity.
Qed.

(** Reachable states, by induction on the schedule from its end. *)
Lemma run_invariant {Host : Type} (hook : R_state Host -> outcome Host)
    (P : state Host -> Prop) (st : state Host) :
  P st ->
  (forall t st', P st' -> P (step hook t st')) ->
  forall sched, P (run hook sched st).
Proof.
  intros Hinit Hstep sched.
  induction sched as [|t sched IH] using rev_ind.
  - exact Hinit.
  - rewrite run_snoc; apply Hstep; exact IH.
Qed.

Ltac destruct_state st :=
  let mu := fresh "mu" in
  let fl := fresh "fl" in
  let r := fresh "r" in
  let wpc := fresh "wpc" in
  let req := fresh "req" in
  let mpc := fresh "mpc" in
  let sc := fresh "sc" in
  let h := fresh "h" in
  destruct st as [[[mu fl] r] wpc req mpc sc h].

Lemma consistent_initialize {Host : Type} (r0 : R_state Host) :
  consistent (initialize r0).
Proof.
  constructor; cbn; try reflexivity; discriminate.
Qed.

(** [R_ToplevelExec] absorbs the failure of the event hook. *)
Lemma R_ToplevelExec_processEvents {Host : Type}
    (hook : R_state Host -> outcome Host) (r : R_state Host) :
  R_ToplevelExec (processEvents hook) r =
  Done (match hook r with Returns _ => TRUE | Jumps _ => FALSE end)
    (R_after (hook r)).
Proof.
  unfold R_ToplevelExec, processEvents.
  destruct (hook r); reflexivity.
Qed.

Lemma pollForEvents_step_exec {Host : Type}
    (hook : R_state Host -> outcome Host) (st : state Host) :
  m_pc st = M_exec ->
  pollForEvents_step hook st =
  main_goto M_lock (with_R (R_after (hook (R (world st)))) st).
Proof.
  intros Hpc.
  unfold pollForEvents_step.
  rewrite Hpc, R_ToplevelExec_processEvents.
  reflexivity.
Qed.

Ltac solve_fields :=
  solve
    [ reflexivity
    | discriminate
    | assumption
    | congruence
    | intuition (discriminate || congruence) ].

Lemma consistent_step {Host : Type} (hook : R_state Host -> outcome Host)
    (t : thread) (st : state Host) :
  consistent st -> consistent (step hook t st).
Proof.
  intros [Hmu Hex Hread Hclr Harm].
  destruct t; cbn [step].
  - destruct_state st.
    unfold holder, signal in *; cbn in *.
    destruct wpc; cbn in *.
    all: try (destruct mu as [[|]|]; cbn in * ).
    all: constructor; unfold holder, signal; cbn in *.
    all: try solve_fields.
    all: try solve [destruct mpc; cbn in *; solve_fields].
    all: try solve [destruct req; destruct mpc; cbn in *; solve_fields].
  - destruct (m_pc st) eqn:Hpc.
    3: rewrite (pollForEvents_step_exec hook st Hpc).
    all: destruct_state st.
    all: unfold holder, signal in *; cbn in *; subst mpc; cbn in *.
    all: try (destruct mu as [[|]|]; cbn in * ).
    all: constructor; unfold holder, signal; cbn in *.
    all: try solve_fields.
    all: try solve [destruct wpc; cbn in *; solve_fields].
Qed.

Lemma consistent_run {Host : Type} (hook : R_state Host -> outcome Host)
    (sched : list thread) (r0 : R_state Host) :
  consistent (run hook sched (initialize r0)).
Proof.
  apply run_invariant.
  - apply consistent_initialize.
  - intros t st'; apply consistent_step.
Qed.

(** A step that changes the flag, or the worker's copy of it, is a step of
    the thread that holds the mutex. *)
Lemma access_under_mutex {Host : Type} (hook : R_state Host -> outcome Host)
    (t : thread) (st : state Host) :
  consistent st ->
  pollingRequested_ (signal (step hook t st)) <> pollingRequested_ (signal st) \/
  w_requested (step hook t st) <> w_requested st ->
  mutex_ (signal st) = Some t.
Proof.
  intros [Hmu Hex _ _ _] Hchg.
  rewrite Hmu; clear Hmu.
  destruct t; cbn [step] in *.
  - destruct_state st.
    unfold holder, signal in *; cbn in *.
    destruct wpc; cbn in *.
    all: try reflexivity.
    all: try (destruct mu as [[|]|]; cbn in * ).
    all: exfalso; destruct Hchg as [Hchg|Hchg]; apply Hchg; reflexivity.
  - destruct (m_pc st) eqn:Hpc.
    3: rewrite (pollForEvents_step_exec hook st Hpc) in Hchg.
    all: destruct_state st.
    all: unfold holder, signal in *; cbn in *; subst mpc; cbn in *.
    all: try (rewrite Bool.andb_true_r in Hex; rewrite Hex; reflexivity).
    all: try (destruct mu as [[|]|]; cbn in * ).
    all: exfalso; destruct Hchg as [Hchg|Hchg]; apply Hchg; reflexivity.
Qed.

(** *** Histories *)

Lemma count_app (p : event -> bool) (h h' : list event) :
  count p (h ++ h') = count p h + count p h'.
Proof.
  unfold count; rewrite filter_app, length_app; reflexivity.
Qed.

Lemma count_snoc (p : event -> bool) (h : list event) (e : event) :
  count p (h ++ [e]) = count p h + (if p e then 1 else 0).
Proof.
  rewrite count_app; unfold count; cbn.
  destruct (p e); reflexivity.
Qed.

Lemma replay_snoc (h : list event) (e : event) :
  replay (h ++ [e]) = apply_event (replay h) e.
Proof.
  unfold replay; rewrite fold_left_app; reflexivity.
Qed.

Ltac keep_flag a tac :=
  exists a; (split; [assumption || reflexivity|]); tac; cbn in *; solve_fields.

Lemma linearized_step {Host : Type} (hook : R_state Host -> outcome Host)
    (t : thread) (st : state Host) :
  consistent st -> linearized st -> linearized (step hook t st).
Proof.
  intros [Hmu Hex Hread Hclr Harm] [a [Hrep Habs]].
  unfold linearized.
  destruct t; cbn [step].
  - destruct_state st.
    unfold holder, signal, abstract_flag in *; cbn in *.
    destruct wpc; cbn in *.
    all: try (destruct mu as [[|]|]; cbn in * ).
    all: try (exfalso; congruence).
    all: try rewrite replay_snoc, Hrep; cbn.
    all: try solve [keep_flag a ltac:(destruct mpc)].
    all: try solve [destruct req; keep_flag a ltac:(destruct mpc)].
    (* [collectRequest] returns *)
    subst a; rewrite Bool.eqb_reflx.
    exists false; split; [reflexivity|].
    rewrite (Hclr eq_refl).
    destruct mpc; cbn in *; auto.
  - destruct (m_pc st) eqn:Hpc.
    3: rewrite (pollForEvents_step_exec hook st Hpc).
    all: destruct_state st.
    all: unfold holder, signal, abstract_flag in *; cbn in *; subst mpc; cbn in *.
    all: try (destruct mu as [[|]|]; cbn in * ).
    all: try (exfalso; congruence).
    all: try rewrite replay_snoc, Hrep; cbn.
    all: try solve [keep_flag a ltac:(destruct wpc)].
    (* [requestPolling] returns *)
    all: exists true; (split; [reflexivity|]); rewrite (Harm eq_refl).
    all: destruct wpc; cbn in *; solve_fields.
Qed.

Lemma linearized_run {Host : Type} (hook : R_state Host -> outcome Host)
    (sched : list thread) (r0 : R_state Host) :
  linearized (run hook sched (initialize r0)).
Proof.
  enough (consistent (run hook sched (initialize r0)) /\
          linearized (run hook sched (initialize r0))) by tauto.
  apply run_invariant with (P := fun st => consistent st /\ linearized st).
  - split; [apply consistent_initialize|].
    exists true; split; reflexivity.
  - intros t st' [Hc Hl]; split.
    + apply consistent_step; exact Hc.
    + apply linearized_step; assumption.
Qed.

(** *** The shape of the worker's turns *)

Lemma concat_iterations_snoc (bs : list bool) (b : bool) :
  concat (map iteration_actions (bs ++ [b])) =
  concat (map iteration_actions bs) ++ iteration_actions b.
Proof.
  rewrite map_app, concat_app; cbn [map concat].
  rewrite app_nil_r; reflexivity.
Qed.

Lemma well_shaped_step {Host : Type} (hook : R_state Host -> outcome Host)
    (t : thread) (st : state Host) :
  well_shaped st -> well_shaped (step hook t st).
Proof.
  intros [bs Hbs].
  unfold well_shaped.
  destruct t; cbn [step].
  - destruct_state st.
    unfold partial_iteration, signal in *; cbn in *.
    destruct wpc; cbn in *.
    all: try (destruct mu as [[|]|]; cbn in * ).
    all: try (rewrite filter_app, Hbs; cbn).
    all: try solve [exists bs; rewrite ?app_nil_r; assumption || reflexivity].
    all: try solve [destruct req; exists bs; assumption].
    (* [collectRequest] returns *)
    all: try solve
      [destruct req; [exists bs | exists (bs ++ [false])];
       rewrite ?concat_iterations_snoc, ?app_nil_r, <- ?app_assoc;
       reflexivity].
    (* [Py_AddPendingCall] *)
    all: exists (bs ++ [true]).
    all: rewrite concat_iterations_snoc, app_nil_r, <- app_assoc; reflexivity.
  - destruct (m_pc st) eqn:Hpc.
    3: rewrite (pollForEvents_step_exec hook st Hpc).
    all: destruct_state st.
    all: unfold partial_iteration, signal in *; cbn in *; subst mpc; cbn in *.
    all: try (destruct mu as [[|]|]; cbn in * ).
    all: try (rewrite filter_app, Hbs; cbn).
    all: exists bs; rewrite ?app_nil_r; assumption || reflexivity.
Qed.

Lemma well_shaped_run {Host : Type} (hook : R_state Host -> outcome Host)
    (sched : list thread) (r0 : R_state Host) :
  well_shaped (run hook sched (initialize r0)).
Proof.
  apply run_invariant.
  - exists []; reflexivity.
  - intros t st'; apply well_shaped_step.
Qed.

Lemma partial_iteration_proper {Host : Type} (st : state Host) :
  exists b, proper_prefix (partial_iteration st) (iteration_actions b).
Proof.
  unfold partial_iteration, proper_prefix.
  destruct (w_pc st); try destruct (w_requested st).
  all: exists true; eexists; (split; [|reflexivity]); discriminate.
Qed.

(** *** Accounts of requests *)

Ltac settle_account :=
  repeat match goal with
    | H : ?x = ?x -> _ |- _ => specialize (H eq_refl)
    end;
  subst;
  repeat match goal with
    | |- context [if ?b then _ else _] => destruct b
    | H : context [if ?b then _ else _] |- _ => destruct b
    end;
  cbn in *; try discriminate; try lia.

Lemma injections_paid_step {Host : Type} (hook : R_state Host -> outcome Host)
    (t : thread) (st : state Host) :
  consistent st -> injections_paid st -> injections_paid (step hook t st).
Proof.
  intros [Hmu Hex Hread Hclr Harm] Hpaid.
  unfold injections_paid in *.
  destruct t; cbn [step].
  - destruct_state st.
    unfold holder, signal, worker_credit, flag_credit in *; cbn in *.
    destruct wpc; cbn in *.
    all: try (destruct mu as [[|]|]; cbn in * ).
    all: rewrite ?count_snoc; cbn.
    all: destruct mpc, fl, req; settle_account.
  - destruct (m_pc st) eqn:Hpc.
    3: rewrite (pollForEvents_step_exec hook st Hpc).
    all: destruct_state st.
    all: unfold holder, signal, worker_credit, flag_credit in *; cbn in *;
      subst mpc; cbn in *.
    all: try (destruct mu as [[|]|]; cbn in * ).
    all: rewrite ?count_snoc; cbn.
    all: destruct wpc, fl, req; settle_account.
Qed.

Lemma collects_paid_step {Host : Type} (hook : R_state Host -> outcome Host)
    (t : thread) (st : state Host) :
  consistent st -> collects_paid st -> collects_paid (step hook t st).
Proof.
  intros [Hmu Hex Hread Hclr Harm] Hpaid.
  unfold collects_paid in *.
  destruct t; cbn [step].
  - destruct_state st.
    unfold holder, signal, collect_credit, flag_credit in *; cbn in *.
    destruct wpc; cbn in *.
    all: try (destruct mu as [[|]|]; cbn in * ).
    all: rewrite ?count_snoc; cbn.
    all: destruct mpc, fl, req; settle_account.
  - destruct (m_pc st) eqn:Hpc.
    3: rewrite (pollForEvents_step_exec hook st Hpc).
    all: destruct_state st.
    all: unfold holder, signal, collect_credit, flag_credit in *; cbn in *;
      subst mpc; cbn in *.
    all: try (destruct mu as [[|]|]; cbn in * ).
    all: rewrite ?count_snoc; cbn.
    all: destruct wpc, fl, req; settle_account.
Qed.

Lemma paid_run {Host : Type} (hook : R_state Host -> outcome Host)
    (sched : list thread) (r0 : R_state Host) :
  injections_paid (run hook sched (initialize r0)) /\
  collects_paid (run hook sched (initialize r0)).
Proof.
  enough (consistent (run hook sched (initialize r0)) /\
          injections_paid (run hook sched (initialize r0)) /\
          collects_paid (run hook sched (initialize r0))) by tauto.
  apply run_invariant
    with (P := fun st => consistent st /\ injections_paid st /\ collects_paid st).
  - split; [apply consistent_initialize|].
    split; unfold injections_paid, collects_paid, count; cbn; lia.
  - intros t st' [Hc [Hi Hcp]].
    split; [apply consistent_step; exact Hc|].
    split; [apply injections_paid_step | apply collects_paid_step]; assumption.
Qed.

(** *** Sequential histories *)

Lemma unconsumed_requests_snoc (h : list event) (e : event) :
  unconsumed_requests (h ++ [e]) =
  match e with
  | EvRequest => S (unconsumed_requests h)
  | EvCollect _ => 0
  | _ => unconsumed_requests h
  end.
Proof.
  unfold unconsumed_requests; rewrite fold_left_app; reflexivity.
Qed.

Lemma replay_flag_after (h : list event) (s : EventPollingSignal) :
  replay h = Some s -> s = idle_signal (flag_after h).
Proof.
  revert s; induction h as [|e h IH] using rev_ind; intros s.
  - intros [= <-]; reflexivity.
  - rewrite replay_snoc.
    destruct (replay h) as [s0|]; [|discriminate].
    rewrite (IH s0 eq_refl).
    unfold flag_after.
    rewrite unconsumed_requests_snoc, count_snoc.
    destruct e as [ms|b| | | |status]; cbn.
    + intros [= <-]; rewrite Nat.add_0_r; reflexivity.
    + destruct (Bool.eqb b _); [|discriminate].
      intros [= <-].
      replace (count is_collect h + 1 =? 0) with false
        by (symmetry; apply Nat.eqb_neq; lia).
      reflexivity.
    + intros [= <-]; rewrite Nat.add_0_r; reflexivity.
    + intros [= <-]; rewrite Nat.add_0_r; reflexivity.
    + intros [= <-]; reflexivity.
    + intros [= <-]; rewrite Nat.add_0_r; reflexivity.
Qed.

Lemma replay_app_Some (h h' : list event) (s : EventPollingSignal) :
  replay (h ++ h') = Some s -> exists s0, replay h = Some s0.
Proof.
  revert s; induction h' as [|e h' IH] using rev_ind; intros s.
  - rewrite app_nil_r; eauto.
  - rewrite app_assoc, replay_snoc.
    destruct (replay (h ++ h')) as [s1|] eqn:Hrep; [|discriminate].
    intros _; exact (IH s1 eq_refl).
Qed.

(** In a sequential history a [collectRequest] returns the flag as the
    calls before it left it. *)
Lemma replay_collect (pre post : list event) (b : bool) (s : EventPollingSignal) :
  replay (pre ++ EvCollect b :: post) = Some s -> b = flag_after pre.
Proof.
  change (pre ++ EvCollect b :: post) with (pre ++ [EvCollect b] ++ post).
  rewrite app_assoc.
  intros Hrep.
  destruct (replay_app_Some _ _ _ Hrep) as [s1 Hs1].
  rewrite replay_snoc in Hs1.
  destruct (replay pre) as [s0|] eqn:Hpre; [|discriminate].
  rewrite (replay_flag_after pre s0 Hpre) in Hs1.
  cbn in Hs1.
  destruct (Bool.eqb b (flag_after pre)) eqn:Heq; [|discriminate].
  apply Bool.eqb_prop; exact Heq.
Qed.

Lemma flag_after_true (h : list event) :
  flag_after h = true <->
  1 <= unconsumed_requests h \/ count is_collect h = 0.
Proof.
  unfold flag_after.
  rewrite Bool.orb_true_iff, Nat.ltb_lt, Nat.eqb_eq.
  reflexivity.
Qed.

(** *** The worker left alone *)

Lemma run_cons {Host : Type} (hook : R_state Host -> outcome Host)
    (t : thread) (sched : list thread) (st : state Host) :
  run hook (t :: sched) st = run hook sched (step hook t st).
Proof. reflexivity. Qed.

Lemma quiescent_worker_step {Host : Type}
    (hook : R_state Host -> outcome Host) (st : state Host) :
  quiescent st ->
  quiescent (step hook Worker st) /\
  exists new,
    history (step hook Worker st) = history st ++ new /\
    count is_true_collect new = 0 /\
    count is_injection new = 0.
Proof.
  intros [Hfl [Hcr Hst]].
  destruct_state st.
  unfold quiescent, worker_credit, signal in *; cbn in *.
  subst fl.
  destruct wpc; cbn in *.
  all: try (destruct mu as [[|]|]; cbn in * ).
  all: try discriminate.
  all: try (destruct req; try discriminate; cbn in * ).
  all: try (specialize (Hst eq_refl); discriminate).
  all: split; [repeat split; (reflexivity || discriminate)|].
  all: try solve [exists []; rewrite app_nil_r; repeat split; reflexivity].
  all: eexists; repeat split; reflexivity.
Qed.

Lemma quiescent_worker_run {Host : Type}
    (hook : R_state Host -> outcome Host) (n : nat) (st : state Host) :
  quiescent st ->
  quiescent (run hook (repeat Worker n) st) /\
  exists new,
    history (run hook (repeat Worker n) st) = history st ++ new /\
    count is_true_collect new = 0 /\
    count is_injection new = 0.
Proof.
  revert st; induction n as [|n IH]; intros st Hq.
  - split; [exact Hq|].
    exists []; rewrite app_nil_r; repeat split; reflexivity.
  - cbn [repeat]; rewrite run_cons.
    destruct (quiescent_worker_step hook st Hq) as [Hq1 [new1 [Hh1 [Hc1 Hi1]]]].
    destruct (IH _ Hq1) as [Hq2 [new2 [Hh2 [Hc2 Hi2]]]].
    split; [exact Hq2|].
    exists (new1 ++ new2).
    rewrite Hh2, Hh1, <- app_assoc, !count_app, Hc1, Hc2, Hi1, Hi2.
    repeat split; reflexivity.
Qed.

Ltac drain_within fuel k :=
  lazymatch fuel with
  | O => fail "no bound found"
  | S ?fuel' =>
      first
        [ solve [exists k; split; [lia | split; reflexivity]]
        | drain_within fuel' (S k) ]
  end.

(** When the main thread is outside [pollForEvents], the worker left
    alone drains the signal: within two turns of its loop it is back at
    the head of the loop with the flag [false]. *)
Lemma worker_drains {Host : Type}
    (hook : R_state Host -> outcome Host) (st : state Host) :
  consistent st ->
  m_pc st = M_idle ->
  exists k,
    k <= 14 /\
    pollingRequested_ (signal (run hook (repeat Worker k) st)) = false /\
    w_pc (run hook (repeat Worker k) st) = W_sleep.
Proof.
  intros [Hmu _ _ _ _] Hpc.
  destruct_state st.
  unfold holder, signal in *; cbn in Hmu, Hpc; subst mpc.
  cbn [world s_pollingSignal].
  destruct wpc; cbn in Hmu; subst mu; destruct fl, req.
  all: drain_within 15 0.
Qed.

(** One turn of the loop, run without interference from the head of the
    loop with the mutex free, is the sequential [collectRequest] followed
    by the call of [Py_AddPendingCall] it asks for, and it drains the
    signal. *)
Lemma eventPollingWorker_turn {Host : Type}
    (hook : R_state Host -> outcome Host) (st : state Host) :
  w_pc st = W_sleep ->
  mutex_ (signal st) = None ->
  let b := pollingRequested_ (signal st) in
  let st' := run hook (repeat Worker (if b then 7 else 6)) st in
  collectRequest Worker (signal st) = Done b (signal st') /\
  history st' = history st ++ iteration_actions b /\
  w_pc st' = W_sleep /\
  quiescent st'.
Proof.
  intros Hpc Hfree.
  destruct_state st.
  unfold signal in *; cbn in Hpc, Hfree; subst wpc mu.
  cbn [world s_pollingSignal pollingRequested_].
  destruct fl.
  all: lazy -[app].
  all: rewrite <- ?app_assoc.
  all: repeat split; reflexivity || discriminate.
Qed.

(** [pollForEvents] run without interference, from outside the callback
    with the mutex free, is the sequential [pollForEvents]. *)
Lemma pollForEvents_solo {Host : Type}
    (hook : R_state Host -> outcome Host) (st : state Host) :
  m_pc st = M_idle ->
  mutex_ (signal st) = None ->
  let st' := run hook (repeat Main 7) st in
  pollForEvents hook (world st) = Done 0%Z (world st') /\
  history st' = history st ++ [EvPollEnter; EvRequest; EvPollReturn 0] /\
  m_pc st' = M_idle.
Proof.
  intros Hpc Hfree.
  destruct_state st.
  unfold signal in *; cbn in Hpc, Hfree; subst mpc mu.
  cbn [world].
  change {| mutex_ := None; pollingRequested_ := fl |} with (idle_signal fl).
  rewrite pollForEvents_idle.
  cbn.
  unfold R_ToplevelExec, processEvents.
  destruct (hook (set_interrupts_suspended true r)) as [r'|r']; cbn.
  all: rewrite <- ?app_assoc; cbn.
  all: repeat split; reflexivity.
Qed.

(** *** The callback among the steps of the worker *)

Lemma consistent_run_from {Host : Type}
    (hook : R_state Host -> outcome Host) (sched : list thread)
    (st : state Host) :
  consistent st -> consistent (run hook sched st).
Proof.
  intros Hc; apply run_invariant; [exact Hc|].
  intros t st'; apply consistent_step.
Qed.

(** The worker never stays inside [collectRequest]: left alone it is out
    of it within three steps. *)
Lemma collectRequest_releases {Host : Type}
    (hook : R_state Host -> outcome Host) (st : state Host) :
  exists kw,
    kw <= 3 /\
    worker_holds (w_pc (run hook (repeat Worker kw) st)) = false /\
    m_pc (run hook (repeat Worker kw) st) = m_pc st.
Proof.
  destruct_state st.
  destruct wpc.
  4: exists 2.
  5: exists 1.
  3: exists 3.
  1, 2, 6, 7: exists 0.
  all: split; [lia|]; split; reflexivity.
Qed.

Ltac main_returns_within fuel km :=
  lazymatch fuel with
  | O => fail "no bound found"
  | S ?fuel' =>
      first
        [ solve [exists km; (split; [lia|]);
                 lazy -[app]; (split; [reflexivity|]);
                 rewrite <- ?app_assoc; reflexivity]
        | main_returns_within fuel' (S km) ]
  end.

Lemma requestPolling_returns {Host : Type}
    (hook : R_state Host -> outcome Host) (st : state Host) :
  consistent st ->
  worker_holds (w_pc st) = false ->
  m_pc st = M_lock ->
  exists km,
    km <= 4 /\
    m_pc (run hook (repeat Main km) st) = M_idle /\
    history (run hook (repeat Main km) st) =
    history st ++ [EvRequest; EvPollReturn 0].
Proof.
  intros [Hmu _ _ _ _] Hout Hpc.
  destruct_state st.
  unfold holder, signal in *; cbn in Hmu, Hout, Hpc.
  rewrite Hout in Hmu; subst mpc; cbn in Hmu; subst mu.
  main_returns_within 5 0.
Qed.

(** A call of [pollForEvents] under way is never stuck: while the worker
    is outside [collectRequest], the main thread alone takes the call to
    its [return 0], through [requestPolling], whatever the event hook
    does. *)
Lemma pollForEvents_returns {Host : Type}
    (hook : R_state Host -> outcome Host) (st : state Host) :
  consistent st ->
  worker_holds (w_pc st) = false ->
  exists km,
    km <= 6 /\
    m_pc (run hook (repeat Main km) st) = M_idle /\
    history (run hook (repeat Main km) st) =
    history st ++ remaining_events (m_pc st).
Proof.
  intros Hc Hout.
  assert (Hexec : forall st' : state Host,
            consistent st' -> worker_holds (w_pc st') = false ->
            m_pc st' = M_exec ->
            exists km,
              km <= 5 /\
              m_pc (run hook (repeat Main km) st') = M_idle /\
              history (run hook (repeat Main km) st') =
              history st' ++ [EvRequest; EvPollReturn 0]).
  { intros st' Hc' Hout' Hpc'.
    destruct (requestPolling_returns hook (step hook Main st'))
      as [km [Hkm [Hidle Hh]]].
    - apply consistent_step; exact Hc'.
    - cbn [step]; rewrite (pollForEvents_step_exec hook st' Hpc'); exact Hout'.
    - cbn [step]; rewrite (pollForEvents_step_exec hook st' Hpc'); reflexivity.
    - exists (S km); split; [lia|].
      cbn [repeat]; rewrite run_cons; split; [exact Hidle|].
      rewrite Hh; cbn [step].
      rewrite (pollForEvents_step_exec hook st' Hpc'); reflexivity. }
  destruct (m_pc st) eqn:Hm; cbn [remaining_events].
  - exists 0; split; [lia|].
    split; [exact Hm | symmetry; apply app_nil_r].
  - (* at the declaration of the scope *)
    assert (Hstep : step hook Main st =
              main_goto M_exec
                (with_m_scope (fst (InterruptsSuspendedScope_ctor (R (world st))))
                   (with_R (snd (InterruptsSuspendedScope_ctor (R (world st))))
                      st))).
    { cbn [step]; unfold pollForEvents_step; rewrite Hm; reflexivity. }
    destruct (Hexec (step hook Main st)) as [km [Hkm [Hidle Hh]]].
    + apply consistent_step; exact Hc.
    + rewrite Hstep; exact Hout.
    + rewrite Hstep; reflexivity.
    + exists (S km); split; [lia|].
      cbn [repeat]; rewrite run_cons; split; [exact Hidle|].
      rewrite Hh, Hstep; reflexivity.
  - destruct (Hexec st Hc Hout Hm) as [km [Hkm H]].
    exists km; split; [lia | exact H].
  - destruct (requestPolling_returns hook st Hc Hout Hm) as [km [Hkm H]].
    exists km; split; [lia | exact H].
  - (* inside [requestPolling], holding the mutex *)
    destruct Hc as [Hmu _ _ _ _].
    destruct_state st.
    unfold holder, signal in *; cbn in Hmu, Hout, Hm.
    rewrite Hout in Hmu; subst mpc; cbn in Hmu; subst mu.
    main_returns_within 4 0.
  - destruct Hc as [Hmu _ _ _ _].
    destruct_state st.
    unfold holder, signal in *; cbn in Hmu, Hout, Hm.
    rewrite Hout in Hmu; subst mpc; cbn in Hmu; subst mu.
    main_returns_within 3 0.
  - destruct_state st.
    cbn in Hm; subst mpc.
    main_returns_within 2 0.
Qed.

(** The two together: from any consistent state, once the worker is out
    of [collectRequest] the call of [pollForEvents] under way finishes. *)
Lemma pollForEvents_call_finishes {Host : Type}
    (hook : R_state Host -> outcome Host) (st : state Host) :
  consistent st ->
  exists kw km,
    kw <= 3 /\ km <= 6 /\
    m_pc (run hook (repeat Main km) (run hook (repeat Worker kw) st)) =
    M_idle /\
    history (run hook (repeat Main km) (run hook (repeat Worker kw) st)) =
    history (run hook (repeat Worker kw) st) ++ remaining_events (m_pc st).
Proof.
  intros Hc.
  destruct (collectRequest_releases hook st) as [kw [Hkw [Hout Hpc]]].
  destruct (pollForEvents_returns hook (run hook (repeat Worker kw) st))
    as [km [Hkm [Hidle Hh]]].
  - apply consistent_run_from; exact Hc.
  - exact Hout.
  - exists kw, km.
    rewrite Hpc in Hh.
    repeat split; assumption.
Qed.

Lemma callbacks_accounted_step {Host : Type}
    (hook : R_state Host -> outcome Host) (t : thread) (st : state Host) :
  callbacks_accounted st -> callbacks_accounted (step hook t st).
Proof.
  intros [Henter [Hreq Hfail]].
  unfold callbacks_accounted.
  destruct t; cbn [step].
  - destruct_state st.
    unfold signal in *; cbn in *.
    destruct wpc; cbn in *.
    all: try (destruct mu as [[|]|]; cbn in * ).
    all: rewrite ?count_snoc; cbn.
    all: try (destruct req; cbn).
    all: repeat split; lia.
  - destruct (m_pc st) eqn:Hpc.
    3: rewrite (pollForEvents_step_exec hook st Hpc).
    all: destruct_state st.
    all: unfold signal in *; cbn in *; subst mpc; cbn in *.
    all: try (destruct mu as [[|]|]; cbn in * ).
    all: rewrite ?count_snoc; cbn.
    all: repeat split; lia.
Qed.

Lemma callbacks_accounted_run {Host : Type}
    (hook : R_state Host -> outcome Host) (sched : list thread)
    (r0 : R_state Host) :
  callbacks_accounted (run hook sched (initialize r0)).
Proof.
  apply run_invariant.
  - repeat split.
  - intros t st'; apply callbacks_accounted_step.
Qed.

Lemma suspension_scoped_step {Host : Type}
    (hook : R_state Host -> outcome Host) (r0 : R_state Host)
    (t : thread) (st : state Host) :
  suspension_scoped r0 st -> suspension_scoped r0 (step hook t st).
Proof.
  intros Hsc.
  destruct t; cbn [step].
  - destruct_state st.
    unfold suspension_scoped, signal in *; cbn in *.
    destruct wpc; cbn in *.
    all: try (destruct mu as [[|]|]; cbn in * ).
    all: exact Hsc.
  - destruct (m_pc st) eqn:Hpc.
    3: rewrite (pollForEvents_step_exec hook st Hpc).
    all: destruct_state st.
    all: unfold suspension_scoped, signal in *; cbn in *; subst mpc; cbn in *.
    all: try (destruct mu as [[|]|]; cbn in * ).
    all: solve [assumption | tauto | split; [assumption | reflexivity]].
Qed.

Lemma suspension_scoped_run {Host : Type}
    (hook : R_state Host -> outcome Host) (sched : list thread)
    (r0 : R_state Host) :
  suspension_scoped r0 (run hook sched (initialize r0)).
Proof.
  apply run_invariant.
  - reflexivity.
  - intros t st'; apply suspension_scoped_step.
Qed.

(** ** The claims about the two threads together *)

Ltac loop_head_within_worker fuel kw :=
  lazymatch fuel with
  | O => fail "no bound found"
  | S ?fuel' =>
      first
        [ solve [exists kw; (split; [lia|]); (split; [lia|]);
                 lazy; split; reflexivity]
        | loop_head_within_worker fuel' (S kw) ]
  end.

Ltac loop_head_within fuel km :=
  lazymatch fuel with
  | O => fail "no bound found"
  | S ?fuel' =>
      first
        [ exists km; loop_head_within_worker 7 0
        | loop_head_within fuel' (S km) ]
  end.

(** The worker is never kept from its loop: from every consistent state,
    once the main thread has left [requestPolling] (at most two of its
    steps, when it is inside), the worker alone is back at the head of its
    loop, with the mutex free, within six of its own steps. *)
Lemma worker_reaches_loop_head {Host : Type}
    (hook : R_state Host -> outcome Host) (st : state Host) :
  consistent st ->
  exists km kw,
    km <= 2 /\ kw <= 6 /\
    w_pc (run hook (repeat Worker kw) (run hook (repeat Main km) st)) =
    W_sleep /\
    mutex_ (signal (run hook (repeat Worker kw) (run hook (repeat Main km) st))) =
    None.
Proof.
  intros [Hmu Hex _ _ _].
  destruct_state st.
  unfold holder, signal in *; cbn in Hmu, Hex.
  destruct wpc; cbn in Hmu, Hex.
  all: destruct mpc; cbn in Hmu, Hex; try discriminate Hex; subst mu.
  all: destruct fl, req.
  all: loop_head_within 3 0.
Qed.

(** C3.  In every interleaving with the main thread, what the worker
    thread has done is a sequence of turns of its loop, each of them:
    sleep for 250 ms, then [collectRequest], then [Py_AddPendingCall]
    exactly when that [collectRequest] returned [true], and nothing else;
    the last turn may be under way.  And the worker does take these
    turns: from the head of its loop with the mutex free, its next six
    statements (seven when the flag is set) sleep 250 ms, run
    [collectRequest] on the signal as it is and return its value [b],
    call [Py_AddPendingCall] exactly when [b] is [true], and bring it back
    to the head of the loop; and from every state the two threads can
    reach, the worker gets to the head of its loop with the mutex free
    again, after at most two steps of the main thread and six of its
    own, so the loop neither ends nor stalls. *)
Theorem eventPollingWorker_iterations {Host : Type}
    (hook : R_state Host -> outcome Host) :
  (forall (r0 : R_state Host) (sched : list thread),
   exists (bs : list bool) (rest : list event) (b : bool),
     filter is_worker_event (history (run hook sched (initialize r0))) =
     concat (map iteration_actions bs) ++ rest /\
     proper_prefix rest (iteration_actions b)) /\
  (forall st : state Host,
     w_pc st = W_sleep ->
     mutex_ (signal st) = None ->
     collectRequest Worker (signal st) =
     Done (pollingRequested_ (signal st))
       (signal
          (run hook
             (repeat Worker (if pollingRequested_ (signal st) then 7 else 6))
             st)) /\
     history
       (run hook
          (repeat Worker (if pollingRequested_ (signal st) then 7 else 6)) st) =
     history st ++ iteration_actions (pollingRequested_ (signal st)) /\
     w_pc
       (run hook
          (repeat Worker (if pollingRequested_ (signal st) then 7 else 6)) st) =
     W_sleep) /\
  (forall (r0 : R_state Host) (sched : list thread),
   exists km kw,
     km <= 2 /\ kw <= 6 /\
     w_pc (run hook (repeat Worker kw)
             (run hook (repeat Main km) (run hook sched (initialize r0)))) =
     W_sleep /\
     mutex_ (signal
               (run hook (repeat Worker kw)
                  (run hook (repeat Main km)
                     (run hook sched (initialize r0))))) = None).
Proof.
  split; [|split].
  - intros r0 sched.
    destruct (well_shaped_run hook sched r0) as [bs Hbs].
    destruct (partial_iteration_proper (run hook sched (initialize r0)))
      as [b Hb].
    exists bs, (partial_iteration (run hook sched (initialize r0))), b.
    split; assumption.
  - intros st Hpc Hfree.
    destruct (eventPollingWorker_turn hook st Hpc Hfree) as [Hcol [Hh [Hw _]]].
    split; [exact Hcol | split; [exact Hh | exact Hw]].
  - intros r0 sched.
    apply worker_reaches_loop_head, consistent_run.
Qed.

(** C4.  Once the signal is drained (the flag is [false] and the worker
    is back at the head of its loop, the turn that collected the request
    done) and [pollForEvents] is not run any more, so that only the worker
    takes steps: in every later state the flag is [false], no later
    [collectRequest] returns [true], and the worker never calls
    [Py_AddPendingCall] again.  And the signal does get drained: from
    every state the two threads can reach with the main thread outside
    [pollForEvents], the worker alone reaches such a drained state within
    two turns of its loop. *)
Theorem self_quiescence {Host : Type}
    (hook : R_state Host -> outcome Host) :
  (forall (st : state Host) (n : nat),
     pollingRequested_ (signal st) = false ->
     w_pc st = W_sleep ->
     exists new,
       history (run hook (repeat Worker n) st) = history st ++ new /\
       pollingRequested_ (signal (run hook (repeat Worker n) st)) = false /\
       count is_true_collect new = 0 /\
       count is_injection new = 0) /\
  (forall (r0 : R_state Host) (sched : list thread),
     m_pc (run hook sched (initialize r0)) = M_idle ->
     exists k,
       k <= 14 /\
       pollingRequested_
         (signal (run hook (repeat Worker k) (run hook sched (initialize r0)))) =
       false /\
       w_pc (run hook (repeat Worker k) (run hook sched (initialize r0))) =
       W_sleep).
Proof.
  split.
  - intros st n Hfl Hpc.
    assert (Hq : quiescent st).
    { unfold quiescent, worker_credit; rewrite Hfl, Hpc.
      repeat split; discriminate. }
    destruct (quiescent_worker_run hook n st Hq)
      as [[Hfl' _] [new [Hh [Hc Hi]]]].
    exists new; repeat split; assumption.
  - intros r0 sched Hidle.
    apply worker_drains; [apply consistent_run | exact Hidle].
Qed.

(** C9.  In every execution from the initial state the calls of
    [Py_AddPendingCall] made so far are at most the calls of
    [requestPolling] completed so far, plus one for the flag the
    constructor set. *)
Theorem injections_bounded {Host : Type}
    (hook : R_state Host -> outcome Host) (r0 : R_state Host)
    (sched : list thread) :
  count is_injection (history (run hook sched (initialize r0))) <=
  count is_request (history (run hook sched (initialize r0))) + 1.
Proof.
  destruct (paid_run hook sched r0) as [Hpaid _].
  unfold injections_paid in Hpaid; lia.
Qed.

(** C10, amended.  In every interleaving from the initial state: a thread
    about to read or write [pollingRequested_] holds the mutex, and a step
    that changes the flag or the worker's copy of it is a step of the
    thread that holds the mutex (so the two threads never touch the flag
    at the same time); a [collectRequest]
    returns [true] exactly when a [requestPolling] returned since the
    previous [collectRequest], or when it is the first [collectRequest]
    and takes the [true] the constructor set; and the [collectRequest]
    that returned [true] are at most the [requestPolling] that returned,
    plus that one. *)
Theorem test_and_clear_interleaved {Host : Type}
    (hook : R_state Host -> outcome Host) (r0 : R_state Host)
    (sched : list thread) :
  (forall t,
     accesses_flag t (run hook sched (initialize r0)) = true ->
     mutex_ (signal (run hook sched (initialize r0))) = Some t) /\
  (forall t,
     pollingRequested_ (signal (step hook t (run hook sched (initialize r0)))) <>
     pollingRequested_ (signal (run hook sched (initialize r0))) \/
     w_requested (step hook t (run hook sched (initialize r0))) <>
     w_requested (run hook sched (initialize r0)) ->
     mutex_ (signal (run hook sched (initialize r0))) = Some t) /\
  (forall pre b post,
     history (run hook sched (initialize r0)) = pre ++ EvCollect b :: post ->
     (b = true <->
      1 <= unconsumed_requests pre \/ count is_collect pre = 0)) /\
  count is_true_collect (history (run hook sched (initialize r0))) <=
  count is_request (history (run hook sched (initialize r0))) + 1.
Proof.
  split; [|split; [|split]].
  - destruct (consistent_run hook sched r0) as [Hmu Hex _ _ _].
    intros t Hacc.
    rewrite Hmu; unfold holder, accesses_flag in *.
    destruct t.
    + destruct (w_pc _); try discriminate; reflexivity.
    + destruct (m_pc _); try discriminate.
      rewrite Bool.andb_true_r in Hex; rewrite Hex; reflexivity.
  - intros t; apply access_under_mutex, consistent_run.
  - intros pre b post Hsplit.
    destruct (linearized_run hook sched r0) as [a [Hrep _]].
    rewrite Hsplit in Hrep.
    rewrite (replay_collect pre post b _ Hrep).
    apply flag_after_true.
  - destruct (paid_run hook sched r0) as [_ Hpaid].
    unfold collects_paid in Hpaid; lia.
Qed.

(** C2.  Whatever the event hook of R does, also when it fails:
    [pollForEvents] called with the mutex free returns (no jump leaves it),
    the status it returns is [0], and afterwards the flag of the signal is
    [true].  In every interleaving with the worker, every call of
    [pollForEvents] made has returned or is under way (none was left by a
    jump), each return came after the [requestPolling] of its call, and
    every status returned is [0].  And a call under way is never stuck:
    once the worker is out of [collectRequest] (at most three of its
    steps), the main thread takes the call through [requestPolling] to
    [return 0]. *)
Theorem pollForEvents_rearms {Host : Type}
    (hook : R_state Host -> outcome Host) :
  (forall w : World Host,
     mutex_ (s_pollingSignal w) = None ->
     exists w',
       pollForEvents hook w = Done 0%Z w' /\
       pollingRequested_ (s_pollingSignal w') = true) /\
  (forall (r0 : R_state Host) (sched : list thread),
     count is_poll_enter (history (run hook sched (initialize r0))) =
     count is_poll_return (history (run hook sched (initialize r0))) +
     match m_pc (run hook sched (initialize r0)) with
     | M_idle => 0
     | _ => 1
     end /\
     count is_request (history (run hook sched (initialize r0))) =
     count is_poll_return (history (run hook sched (initialize r0))) +
     match m_pc (run hook sched (initialize r0)) with
     | M_return => 1
     | _ => 0
     end /\
     count is_failed_return (history (run hook sched (initialize r0))) = 0) /\
  (forall (r0 : R_state Host) (sched : list thread),
   exists kw km,
     kw <= 3 /\ km <= 6 /\
     m_pc (run hook (repeat Main km)
             (run hook (repeat Worker kw) (run hook sched (initialize r0)))) =
     M_idle /\
     history (run hook (repeat Main km)
                (run hook (repeat Worker kw) (run hook sched (initialize r0)))) =
     history (run hook (repeat Worker kw) (run hook sched (initialize r0))) ++
     remaining_events (m_pc (run hook sched (initialize r0)))).
Proof.
  split; [|split].
  - intros w Hfree.
    rewrite (world_idle_eq w Hfree).
    eexists; split; [apply pollForEvents_idle | reflexivity].
  - intros r0 sched; exact (callbacks_accounted_run hook sched r0).
  - intros r0 sched.
    apply pollForEvents_call_finishes, consistent_run.
Qed.

(** The first two statements of a call: Python enters [pollForEvents]
    and the scope is declared.  The scope holds the suspension state it
    found and the interrupts are suspended before [R_ToplevelExec] runs. *)
Lemma scope_acquired_on_entry {Host : Type}
    (hook : R_state Host -> outcome Host) (st : state Host) :
  m_pc st = M_idle ->
  m_pc (run hook (repeat Main 2) st) = M_exec /\
  suspended_ (m_scope (run hook (repeat Main 2) st)) =
  interrupts_suspended (R (world st)) /\
  R (world (run hook (repeat Main 2) st)) =
  set_interrupts_suspended true (R (world st)).
Proof.
  intros Hpc.
  destruct_state st.
  cbn in Hpc; subst mpc.
  lazy.
  repeat split.
Qed.

(** C8.  Whatever the event hook of R does, also when it fails:
    [pollForEvents] called with the mutex free runs the hook, once and
    with the interrupts suspended, and when it returns (its one way out)
    the suspension flag is what it was before the call while the rest of
    the R state is what the hook left.  Statement by statement: the call
    is entered, the scope is declared, keeping the suspension state it
    found and suspending the interrupts, and only then [R_ToplevelExec]
    runs; run alone to its [return 0] the statements give what the whole
    function gives; and in every interleaving with the worker the flag is
    suspended when the hook is entered and, between calls of
    [pollForEvents], is what it was at the start. *)
Theorem interrupts_suspension_scoped {Host : Type}
    (hook : R_state Host -> outcome Host) :
  (forall w : World Host,
     mutex_ (s_pollingSignal w) = None ->
     exists w',
       pollForEvents hook w = Done 0%Z w' /\
       interrupts_suspended (R w') = interrupts_suspended (R w) /\
       pollForEvents (fun r => hook (set_interrupts_suspended true r)) w =
       pollForEvents hook w /\
       R w' =
       set_interrupts_suspended (interrupts_suspended (R w))
         (R_after (hook (set_interrupts_suspended true (R w))))) /\
  (forall (r0 : R_state Host) (sched : list thread),
     (m_pc (run hook sched (initialize r0)) = M_exec ->
      interrupts_suspended (R (world (run hook sched (initialize r0)))) =
      true) /\
     (m_pc (run hook sched (initialize r0)) = M_idle ->
      interrupts_suspended (R (world (run hook sched (initialize r0)))) =
      interrupts_suspended r0)) /\
  (forall st : state Host,
     m_pc st = M_idle ->
     m_pc (run hook (repeat Main 2) st) = M_exec /\
     suspended_ (m_scope (run hook (repeat Main 2) st)) =
     interrupts_suspended (R (world st)) /\
     R (world (run hook (repeat Main 2) st)) =
     set_interrupts_suspended true (R (world st))) /\
  (forall st : state Host,
     m_pc st = M_idle ->
     mutex_ (signal st) = None ->
     pollForEvents hook (world st) =
     Done 0%Z (world (run hook (repeat Main 7) st)) /\
     history (run hook (repeat Main 7) st) =
     history st ++ [EvPollEnter; EvRequest; EvPollReturn 0] /\
     m_pc (run hook (repeat Main 7) st) = M_idle).
Proof.
  split; [|split; [|split]].
  - intros w Hfree.
    rewrite (world_idle_eq w Hfree).
    eexists; split; [apply pollForEvents_idle|].
    split; [reflexivity|].
    split; [|reflexivity].
    rewrite !pollForEvents_idle.
    reflexivity.
  - intros r0 sched.
    pose proof (suspension_scoped_run hook sched r0) as Hsc.
    unfold suspension_scoped in Hsc.
    split; intros Hpc; rewrite Hpc in Hsc; [apply Hsc | exact Hsc].
  - intros st Hpc; apply scope_acquired_on_entry; exact Hpc.
  - intros st Hpc Hfree; apply (pollForEvents_solo hook st Hpc Hfree).
Qed.

(** C5.  The constructor leaves the flag set.  With no call of
    [requestPolling], the first of any number of calls of [collectRequest]
    on the fresh signal returns [true] and all later ones return [false];
    and when only the worker runs from the initial state, its first turn
    collects [true] (and calls [Py_AddPendingCall]) and no [collectRequest]
    after that returns [true]. *)
Theorem initial_prime {Host : Type}
    (hook : R_state Host -> outcome Host) (r0 : R_state Host)
    (t : thread) (n : nat) :
  pollingRequested_ EventPollingSignal_ctor = true /\
  (exists s',
     collectRequest_times (S n) t EventPollingSignal_ctor =
     Done (true :: repeat false n) s' /\
     pollingRequested_ s' = false) /\
  (exists new,
     history (run hook (repeat Worker (7 + n)) (initialize r0)) =
     iteration_actions true ++ new /\
     count is_true_collect new = 0).
Proof.
  split; [reflexivity|].
  split.
  - exists (idle_signal false).
    split; [|reflexivity].
    change EventPollingSignal_ctor with (idle_signal true).
    apply collectRequest_times_idle.
  - rewrite repeat_app, run_app.
    destruct (eventPollingWorker_turn hook (initialize r0) eq_refl eq_refl)
      as [_ [Hh [_ Hq]]].
    cbn [initialize world signal s_pollingSignal EventPollingSignal_ctor
         pollingRequested_ history app] in Hh, Hq.
    destruct (quiescent_worker_run hook n _ Hq) as [_ [new [Hnew [Hc _]]]].
    exists new; split; [|exact Hc].
    rewrite Hnew, Hh; reflexivity.
Qed.

(** ** The theorems at concrete inputs *)

Lemma collectRequest_test_and_clear_witness :
  mutex_ EventPollingSignal_ctor = None /\
  exists s',
    collectRequest Worker EventPollingSignal_ctor =
    Done (pollingRequested_ EventPollingSignal_ctor) s' /\
    pollingRequested_ s' = false /\
    mutex_ s' = None.
Proof.
  split; [reflexivity|].
  apply (collectRequest_test_and_clear Worker EventPollingSignal_ctor).
  reflexivity.
Defined.

Lemma pollForEvents_rearms_witness :
  mutex_ (s_pollingSignal world_drained) = None /\
  exists w',
    pollForEvents failing_hook world_drained = Done 0%Z w' /\
    pollingRequested_ (s_pollingSignal w') = true.
Proof.
  split; [reflexivity|].
  apply (proj1 (pollForEvents_rearms failing_hook) world_drained).
  reflexivity.
Defined.

Lemma interrupts_suspension_scoped_witness :
  mutex_ (s_pollingSignal world_enabled) = None /\
  exists w',
    pollForEvents recording_hook world_enabled = Done 0%Z w' /\
    interrupts_suspended (R w') = interrupts_suspended (R world_enabled) /\
    pollForEvents (fun r => recording_hook (set_interrupts_suspended true r))
      world_enabled =
    pollForEvents recording_hook world_enabled /\
    R w' = {| interrupts_suspended := false; R_session := true |}.
Proof.
  split; [reflexivity|].
  apply (proj1 (interrupts_suspension_scoped recording_hook) world_enabled).
  reflexivity.
Defined.

Lemma eventPollingWorker_iterations_witness :
  w_pc (initialize r_enabled) = W_sleep /\
  mutex_ (signal (initialize r_enabled)) = None /\
  collectRequest Worker (signal (initialize r_enabled)) =
  Done true (signal (run quiet_hook (repeat Worker 7) (initialize r_enabled))) /\
  history (run quiet_hook (repeat Worker 7) (initialize r_enabled)) =
  [EvSleep 250; EvCollect true; EvAddPendingCall] /\
  w_pc (run quiet_hook (repeat Worker 7) (initialize r_enabled)) = W_sleep.
Proof.
  split; [reflexivity|].
  split; [reflexivity|].
  apply (proj1 (proj2 (eventPollingWorker_iterations quiet_hook))
           (initialize r_enabled)).
  - reflexivity.
  - reflexivity.
Defined.

Lemma requestPolling_idempotent_witness :
  mutex_ (idle_signal false) = None /\
  exists s',
    requestPolling Main (idle_signal false) = Done tt s' /\
    pollingRequested_ s' = true /\
    requestPolling_times 3 Main (idle_signal false) =
    requestPolling Main (idle_signal false) /\
    (requestPolling_times 3 Main ;; collectRequest Worker) (idle_signal false) =
    (requestPolling Main ;; collectRequest Worker) (idle_signal false) /\
    exists s'',
      (requestPolling Main ;; collectRequest Worker) (idle_signal false) =
      Done true s''.
Proof.
  split; [reflexivity|].
  apply (requestPolling_idempotent Main Worker 2 (idle_signal false)).
  reflexivity.
Defined.

Lemma burst_collapse_witness :
  mutex_ (idle_signal false) = None /\
  exists s',
    (requestPolling Main ;; requestPolling Main ;; requestPolling Main ;;
     collectRequest_times 2 Worker) (idle_signal false) =
    Done [true; false] s' /\
    (requestPolling Main ;; requestPolling Main ;; requestPolling Main ;;
     b1 <- collectRequest Worker ;;
     b2 <- collectRequest Worker ;;
     ret (b1, b2)) (idle_signal false) =
    Done (true, false) s'.
Proof.
  split; [reflexivity|].
  apply (burst_collapse Main Worker 1 (idle_signal false)).
  reflexivity.
Defined.

Lemma self_quiescence_witness :
  pollingRequested_
    (signal (run quiet_hook (repeat Worker 7) (initialize r_enabled))) = false /\
  w_pc (run quiet_hook (repeat Worker 7) (initialize r_enabled)) = W_sleep /\
  exists new,
    history
      (run quiet_hook (repeat Worker 20)
         (run quiet_hook (repeat Worker 7) (initialize r_enabled))) =
    history (run quiet_hook (repeat Worker 7) (initialize r_enabled)) ++ new /\
    pollingRequested_
      (signal
         (run quiet_hook (repeat Worker 20)
            (run quiet_hook (repeat Worker 7) (initialize r_enabled)))) = false /\
    count is_true_collect new = 0 /\
    count is_injection new = 0.
Proof.
  split; [reflexivity|].
  split; [reflexivity|].
  apply (proj1 (self_quiescence quiet_hook)
           (run quiet_hook (repeat Worker 7) (initialize r_enabled)) 20).
  - reflexivity.
  - reflexivity.
Defined.

Lemma test_and_clear_interleaved_witness :
  history (run failing_hook two_turns (initialize r_enabled)) =
  [EvSleep 250; EvCollect true; EvAddPendingCall;
   EvPollEnter; EvRequest; EvPollReturn 0; EvSleep 250] ++
  EvCollect true :: [] /\
  (true = true <->
   1 <= unconsumed_requests
          [EvSleep 250; EvCollect true; EvAddPendingCall;
           EvPollEnter; EvRequest; EvPollReturn 0; EvSleep 250] \/
   count is_collect
     [EvSleep 250; EvCollect true; EvAddPendingCall;
      EvPollEnter; EvRequest; EvPollReturn 0; EvSleep 250] = 0).
Proof.
  split; [reflexivity|].
  apply (proj1 (proj2 (proj2
           (test_and_clear_interleaved failing_hook r_enabled two_turns)))
           _ true []).
  reflexivity.
Defined.

(** C10 as the claim words it fails on the first [collectRequest] of the
    worker: it returns [true] although no [requestPolling] was called
    before it; the [true] is the one the constructor set. *)
Lemma first_collect_takes_no_request :
  history (run quiet_hook (repeat Worker 5) (initialize r_enabled)) =
  [EvSleep 250] ++ EvCollect true :: [] /\
  unconsumed_requests [EvSleep 250] = 0 /\
  count is_request
    (history (run quiet_hook (repeat Worker 5) (initialize r_enabled))) = 0 /\
  count is_true_collect
    (history (run quiet_hook (repeat Worker 5) (initialize r_enabled))) = 1.
Proof.
  repeat split.
Qed.

(** * Further properties of the code *)

(** ** The callback and the event hook *)

(** X1.  [pollForEvents] called with the mutex free runs the event hook
    exactly once, entered with the interrupts suspended, and what the hook
    left of the R session stays as it is, whether the hook returned or
    failed; only the suspension flag is put back.  The signal it leaves
    does not depend on the hook or on the session: it is armed with the
    mutex free. *)
Theorem pollForEvents_runs_hook_once {Host : Type}
    (hook : R_state Host -> outcome Host) (w : World Host) :
  mutex_ (s_pollingSignal w) = None ->
  pollForEvents hook w =
  Done 0%Z
    {| s_pollingSignal := idle_signal true;
       R := {| interrupts_suspended := interrupts_suspended (R w);
               R_session :=
                 R_session
                   (R_after (hook (set_interrupts_suspended true (R w)))) |} |}.
Proof.
  intros Hfree.
  rewrite (world_idle_eq w Hfree) at 1.
  rewrite pollForEvents_idle.
  reflexivity.
Qed.

Lemma pollForEvents_runs_hook_once_witness :
  mutex_ (s_pollingSignal world_drained) = None /\
  pollForEvents failing_hook world_drained =
  Done 0%Z
    {| s_pollingSignal := idle_signal true;
       R := {| interrupts_suspended := interrupts_suspended (R world_drained);
               R_session :=
                 R_session
                   (R_after
                      (failing_hook
                         (set_interrupts_suspended true (R world_drained)))) |} |}.
Proof.
  split; [reflexivity|].
  apply (pollForEvents_runs_hook_once failing_hook world_drained).
  reflexivity.
Defined.

(** ** The cycle keeps itself alive *)

Lemma worker_step_keeps_main {Host : Type}
    (hook : R_state Host -> outcome Host) (st : state Host) :
  m_pc (step hook Worker st) = m_pc st.
Proof.
  destruct_state st; cbn.
  destruct wpc; cbn; try reflexivity.
  - destruct mu; reflexivity.
Qed.

Lemma worker_run_keeps_main {Host : Type}
    (hook : R_state Host -> outcome Host) (n : nat) (st : state Host) :
  m_pc (run hook (repeat Worker n) st) = m_pc st.
Proof.
  revert st; induction n as [|n IH]; intros st; [reflexivity|].
  cbn [repeat]; rewrite run_cons, IH.
  apply worker_step_keeps_main.
Qed.

Lemma main_step_keeps_worker {Host : Type}
    (hook : R_state Host -> outcome Host) (st : state Host) :
  w_pc (step hook Main st) = w_pc st /\
  w_requested (step hook Main st) = w_requested st.
Proof.
  cbn [step].
  destruct (m_pc st) eqn:Hpc.
  3: rewrite (pollForEvents_step_exec hook st Hpc); split; reflexivity.
  all: unfold pollForEvents_step; rewrite Hpc.
  all: try (split; reflexivity).
  destruct (mutex_lock Main (signal st)); split; reflexivity.
Qed.

Lemma main_run_keeps_worker {Host : Type}
    (hook : R_state Host -> outcome Host) (n : nat) (st : state Host) :
  w_pc (run hook (repeat Main n) st) = w_pc st /\
  w_requested (run hook (repeat Main n) st) = w_requested st.
Proof.
  revert st; induction n as [|n IH]; intros st; [split; reflexivity|].
  cbn [repeat]; rewrite run_cons.
  destruct (IH (step hook Main st)) as [Hpc Hreq].
  destruct (main_step_keeps_worker hook st) as [Hpc1 Hreq1].
  split; congruence.
Qed.

Lemma Done_inj {S A : Type} (a a' : A) (s s' : S) :
  Done a s = Done a' s' -> a = a' /\ s = s'.
Proof.
  intros [= -> ->]; split; reflexivity.
Qed.

Lemma worker_turn_armed {Host : Type}
    (hook : R_state Host -> outcome Host) (st : state Host) :
  w_pc st = W_sleep ->
  signal st = idle_signal true ->
  signal (run hook (repeat Worker 7) st) = idle_signal false /\
  history (run hook (repeat Worker 7) st) =
  history st ++ iteration_actions true /\
  w_pc (run hook (repeat Worker 7) st) = W_sleep.
Proof.
  intros Hpc Hsig.
  destruct_state st.
  unfold signal in *; cbn in Hpc, Hsig; subst wpc.
  injection Hsig as -> ->.
  lazy -[app].
  rewrite <- ?app_assoc.
  repeat split.
Qed.

(** One round from an armed state with both threads between calls: the
    worker collects the request and injects, the callback re-arms. *)
Lemma round_keeps_armed {Host : Type}
    (hook : R_state Host -> outcome Host) (st : state Host) :
  armed_and_idle st ->
  armed_and_idle (run hook round st) /\
  history (run hook round st) = history st ++ round_events.
Proof.
  intros [Hw [Hm Hsig]].
  unfold round; rewrite run_app.
  destruct (worker_turn_armed hook st Hw Hsig) as [Hsig1 [Hh1 Hw1]].
  pose proof (worker_run_keeps_main hook 7 st) as Hm1.
  rewrite Hm in Hm1.
  revert Hsig1 Hh1 Hw1 Hm1.
  generalize (run hook (repeat Worker 7) st); intros st1 Hsig1 Hh1 Hw1 Hm1.
  assert (Hfree1 : mutex_ (signal st1) = None)
    by (rewrite Hsig1; reflexivity).
  destruct (pollForEvents_solo hook st1 Hm1 Hfree1) as [Hpoll [Hh2 Hm2]].
  rewrite (world_idle_eq (world st1) Hfree1), pollForEvents_idle in Hpoll.
  apply Done_inj in Hpoll; destruct Hpoll as [_ Hworld].
  destruct (main_run_keeps_worker hook 7 st1) as [Hw2 _].
  revert Hworld Hh2 Hm2 Hw2.
  generalize (run hook (repeat Main 7) st1); intros st2 Hworld Hh2 Hm2 Hw2.
  split; [split; [|split]|].
  - rewrite Hw2; exact Hw1.
  - exact Hm2.
  - unfold signal; rewrite <- Hworld; reflexivity.
  - rewrite Hh2, Hh1; unfold round_events.
    rewrite <- app_assoc; reflexivity.
Qed.

Lemma rounds_keep_armed {Host : Type}
    (hook : R_state Host -> outcome Host) (n : nat) (st : state Host) :
  armed_and_idle st ->
  armed_and_idle (run hook (rounds n) st) /\
  history (run hook (rounds n) st) =
  history st ++ concat (repeat round_events n).
Proof.
  revert st; induction n as [|n IH]; intros st Harmed.
  - split; [exact Harmed|].
    cbn; rewrite app_nil_r; reflexivity.
  - unfold rounds; cbn [repeat concat]; rewrite run_app.
    destruct (round_keeps_armed hook st Harmed) as [Harmed1 Hh1].
    destruct (IH _ Harmed1) as [Harmed2 Hh2].
    split; [exact Harmed2|].
    unfold rounds in Hh2; rewrite Hh2, Hh1, <- app_assoc; reflexivity.
Qed.

Lemma count_rounds (p : event -> bool) (n : nat) :
  count p (concat (repeat round_events n)) = n * count p round_events.
Proof.
  induction n as [|n IH]; [reflexivity|].
  cbn [repeat concat]; rewrite count_app, IH; reflexivity.
Qed.

(** X2.  The cycle sustains itself at one injection per turn: when, from
    the start, the callback runs once after each turn of the worker, then
    after [n] such rounds, whatever the event hook does, the worker has
    called [Py_AddPendingCall] exactly [n] times, [pollForEvents] has
    returned [n] times, and the signal is armed again with both threads
    between calls. *)
Theorem sustained_polling {Host : Type}
    (hook : R_state Host -> outcome Host) (r0 : R_state Host) (n : nat) :
  history (run hook (rounds n) (initialize r0)) =
  concat (repeat round_events n) /\
  count is_injection (history (run hook (rounds n) (initialize r0))) = n /\
  count is_poll_return (history (run hook (rounds n) (initialize r0))) = n /\
  armed_and_idle (run hook (rounds n) (initialize r0)).
Proof.
  destruct (rounds_keep_armed hook n (initialize r0)) as [Harmed Hh].
  { repeat split. }
  cbn [initialize history app] in Hh.
  rewrite Hh, !count_rounds.
  split; [reflexivity|].
  split; [|split; [|exact Harmed]].
  - change (count is_injection round_events) with 1; lia.
  - change (count is_poll_return round_events) with 1; lia.
Qed.

(** ** The throttle *)

Lemma throttled_snoc (h : list event) (e : event) :
  throttled (h ++ [e]) = throttle_event (throttled h) e.
Proof.
  unfold throttled; rewrite fold_left_app; reflexivity.
Qed.

Lemma sleeps_since_injection_snoc (h : list event) (e : event) :
  sleeps_since_injection (h ++ [e]) =
  match e with
  | EvSleep ms =>
      if (ms =? 250)%Z then S (sleeps_since_injection h)
      else sleeps_since_injection h
  | EvAddPendingCall => 0
  | _ => sleeps_since_injection h
  end.
Proof.
  unfold sleeps_since_injection; rewrite fold_left_app; reflexivity.
Qed.

Lemma throttled_sleeps (h : list event) (n : nat) :
  throttled h = Some n -> n = sleeps_since_injection h.
Proof.
  revert n; induction h as [|e h IH] using rev_ind; intros n.
  - intros [= <-]; reflexivity.
  - rewrite throttled_snoc, sleeps_since_injection_snoc.
    destruct (throttled h) as [n0|]; [|discriminate].
    rewrite <- (IH n0 eq_refl).
    destruct e as [ms|b| | | |status]; cbn.
    all: try (intros [= <-]; reflexivity).
    destruct n0; [discriminate|].
    intros [= <-]; reflexivity.
Qed.

Lemma throttled_app_Some (h h' : list event) (n : nat) :
  throttled (h ++ h') = Some n -> exists n0, throttled h = Some n0.
Proof.
  revert n; induction h' as [|e h' IH] using rev_ind; intros n.
  - rewrite app_nil_r; eauto.
  - rewrite app_assoc, throttled_snoc.
    destruct (throttled (h ++ h')) as [n1|] eqn:Hth; [|discriminate].
    intros _; exact (IH n1 eq_refl).
Qed.

Lemma throttle_kept_step {Host : Type}
    (hook : R_state Host -> outcome Host) (t : thread) (st : state Host) :
  throttle_kept st -> throttle_kept (step hook t st).
Proof.
  intros [n [Hth Hn]].
  unfold throttle_kept.
  destruct t; cbn [step].
  - destruct_state st.
    unfold signal in *; cbn in *.
    destruct wpc; cbn in *.
    all: rewrite ?throttled_snoc, ?Hth; cbn.
    + exists (S n); split; [reflexivity | intros _; lia].
    + destruct mu; cbn; exists n; (split; [reflexivity || assumption|]);
        intros _; apply Hn; discriminate.
    + exists n; split; [reflexivity || assumption | intros _; apply Hn; discriminate].
    + exists n; split; [reflexivity || assumption | intros _; apply Hn; discriminate].
    + exists n; split; [reflexivity | intros _; apply Hn; discriminate].
    + exists n; split; [reflexivity || assumption | intros _; apply Hn; discriminate].
    + assert (Hn' : 1 <= n) by (apply Hn; discriminate).
      destruct n as [|n]; [lia|].
      exists 0; split; [reflexivity|].
      intros Hne; exfalso; apply Hne; reflexivity.
  - destruct (m_pc st) eqn:Hpc.
    3: rewrite (pollForEvents_step_exec hook st Hpc).
    all: destruct_state st.
    all: unfold signal in *; cbn in *; subst mpc; cbn in *.
    all: try (destruct mu as [[|]|]; cbn in * ).
    all: rewrite ?throttled_snoc, ?Hth; cbn.
    all: exists n; split; [reflexivity || assumption | assumption].
Qed.

Lemma throttle_kept_run {Host : Type}
    (hook : R_state Host -> outcome Host) (sched : list thread)
    (r0 : R_state Host) :
  throttle_kept (run hook sched (initialize r0)).
Proof.
  apply run_invariant.
  - exists 0; split; [reflexivity|].
    intros Hne; exfalso; apply Hne; reflexivity.
  - intros t st'; apply throttle_kept_step.
Qed.

(** X3.  The throttle holds in every interleaving: before each call of
    [Py_AddPendingCall] the worker has slept its 250 ms at least once
    since its previous call of [Py_AddPendingCall] (since the start, for
    the first one), so two injections are never less than one sleep
    apart. *)
Theorem injections_throttled {Host : Type}
    (hook : R_state Host -> outcome Host) (r0 : R_state Host)
    (sched : list thread) (pre post : list event) :
  history (run hook sched (initialize r0)) = pre ++ EvAddPendingCall :: post ->
  1 <= sleeps_since_injection pre.
Proof.
  intros Hsplit.
  destruct (throttle_kept_run hook sched r0) as [n [Hth _]].
  rewrite Hsplit in Hth.
  change (pre ++ EvAddPendingCall :: post)
    with (pre ++ [EvAddPendingCall] ++ post) in Hth.
  rewrite app_assoc in Hth.
  destruct (throttled_app_Some _ _ _ Hth) as [n1 Hn1].
  rewrite throttled_snoc in Hn1.
  destruct (throttled pre) as [n0|] eqn:Hpre; [|discriminate].
  rewrite <- (throttled_sleeps pre n0 Hpre).
  destruct n0; [discriminate | lia].
Qed.

Lemma injections_throttled_witness :
  history (run failing_hook two_turns (initialize r_enabled)) =
  [EvSleep 250; EvCollect true] ++
  EvAddPendingCall ::
  [EvPollEnter; EvRequest; EvPollReturn 0; EvSleep 250; EvCollect true] /\
  1 <= sleeps_since_injection [EvSleep 250; EvCollect true].
Proof.
  split; [reflexivity|].
  apply (injections_throttled failing_hook r_enabled two_turns
           [EvSleep 250; EvCollect true]
           [EvPollEnter; EvRequest; EvPollReturn 0; EvSleep 250;
            EvCollect true]).
  reflexivity.
Defined.

(** ** Waiting for the mutex *)

Lemma worker_waits_only_for_main {Host : Type}
    (hook : R_state Host -> outcome Host) (st : state Host) :
  consistent st ->
  w_pc (step hook Worker st) = w_pc st ->
  w_pc st = W_lock /\ mutex_ (signal st) = Some Main.
Proof.
  intros [Hmu _ _ _ _] Hsame.
  destruct_state st.
  unfold holder, signal in *; cbn in *.
  destruct wpc; cbn in *; try discriminate.
  - destruct mu as [[|]|]; cbn in *; try discriminate.
    + destruct mpc; discriminate.
    + split; reflexivity.
  - destruct req; discriminate.
Qed.

Lemma main_waits_only_for_worker {Host : Type}
    (hook : R_state Host -> outcome Host) (st : state Host) :
  consistent st ->
  m_pc (step hook Main st) = m_pc st ->
  m_pc st = M_lock /\ mutex_ (signal st) = Some Worker.
Proof.
  intros [Hmu Hex _ _ _] Hsame.
  cbn [step] in Hsame.
  destruct (m_pc st) eqn:Hpc.
  3: rewrite (pollForEvents_step_exec hook st Hpc) in Hsame; discriminate.
  all: destruct_state st.
  all: unfold holder, signal in *; cbn in *; subst mpc; cbn in *.
  all: try discriminate.
  destruct mu as [[|]|]; cbn in *; try discriminate.
  - split; reflexivity.
  - destruct (worker_holds wpc); discriminate.
Qed.

(** X4.  The two threads never deadlock on the mutex.  In every state
    they can reach, a thread whose step does not take it to another
    statement is waiting at its [lock_guard] for the mutex the other
    thread holds, and the two are never both waiting: one of them can
    always take its next statement. *)
Theorem no_deadlock {Host : Type}
    (hook : R_state Host -> outcome Host) (r0 : R_state Host)
    (sched : list thread) :
  (w_pc (step hook Worker (run hook sched (initialize r0))) =
   w_pc (run hook sched (initialize r0)) ->
   w_pc (run hook sched (initialize r0)) = W_lock /\
   mutex_ (signal (run hook sched (initialize r0))) = Some Main) /\
  (m_pc (step hook Main (run hook sched (initialize r0))) =
   m_pc (run hook sched (initialize r0)) ->
   m_pc (run hook sched (initialize r0)) = M_lock /\
   mutex_ (signal (run hook sched (initialize r0))) = Some Worker) /\
  (w_pc (step hook Worker (run hook sched (initialize r0))) <>
   w_pc (run hook sched (initialize r0)) \/
   m_pc (step hook Main (run hook sched (initialize r0))) <>
   m_pc (run hook sched (initialize r0))).
Proof.
  pose proof (consistent_run hook sched r0) as Hc.
  revert Hc; generalize (run hook sched (initialize r0)); intros st Hc.
  split; [apply worker_waits_only_for_main; exact Hc|].
  split; [apply main_waits_only_for_worker; exact Hc|].
  destruct (worker_pc_eq_dec (w_pc (step hook Worker st)) (w_pc st))
    as [Hw|Hw]; [|left; exact Hw].
  right; intros Hm.
  destruct (worker_waits_only_for_main hook st Hc Hw) as [_ Hmain].
  destruct (main_waits_only_for_worker hook st Hc Hm) as [_ Hworker].
  congruence.
Qed.

Lemma no_deadlock_witness :
  m_pc (step failing_hook Main
          (run failing_hook (repeat Worker 2 ++ repeat Main 3)
             (initialize r_enabled))) =
  m_pc (run failing_hook (repeat Worker 2 ++ repeat Main 3)
          (initialize r_enabled)) /\
  m_pc (run failing_hook (repeat Worker 2 ++ repeat Main 3)
          (initialize r_enabled)) = M_lock /\
  mutex_ (signal (run failing_hook (repeat Worker 2 ++ repeat Main 3)
                    (initialize r_enabled))) = Some Worker.
Proof.
  split; [vm_compute; reflexivity|].
  apply (proj1 (proj2
           (no_deadlock failing_hook r_enabled
              (repeat Worker 2 ++ repeat Main 3)))).
  vm_compute; reflexivity.
Defined.

(** ** The flag and the calls completed *)

(** X5.  In every state the two threads can reach in which the mutex is
    free (no call on the signal is under way), the flag is set exactly
    when a [requestPolling] has returned since the last [collectRequest]
    that returned, or no [collectRequest] has returned yet: no request is
    lost and none is invented. *)
Theorem flag_follows_history {Host : Type}
    (hook : R_state Host -> outcome Host) (r0 : R_state Host)
    (sched : list thread) :
  mutex_ (signal (run hook sched (initialize r0))) = None ->
  pollingRequested_ (signal (run hook sched (initialize r0))) =
  flag_after (history (run hook sched (initialize r0))).
Proof.
  intros Hfree.
  destruct (consistent_run hook sched r0) as [Hmu _ _ _ _].
  destruct (linearized_run hook sched r0) as [a [Hrep Habs]].
  apply replay_flag_after in Hrep.
  assert (Ha : a = flag_after (history (run hook sched (initialize r0)))).
  { unfold idle_signal in Hrep; congruence. }
  rewrite <- Ha; clear Ha Hrep.
  rewrite Hmu in Hfree; clear Hmu.
  unfold holder, abstract_flag in *.
  destruct (w_pc _); cbn in Hfree; try discriminate.
  all: destruct (m_pc _); cbn in Hfree; try discriminate.
  all: symmetry; exact Habs.
Qed.

Lemma flag_follows_history_witness :
  mutex_ (signal (run failing_hook two_turns (initialize r_enabled))) = None /\
  pollingRequested_
    (signal (run failing_hook two_turns (initialize r_enabled))) =
  flag_after (history (run failing_hook two_turns (initialize r_enabled))).
Proof.
  split; [reflexivity|].
  apply (flag_follows_history failing_hook r_enabled two_turns).
  reflexivity.
Defined.

(** ** Who sets the flag and who clears it *)

Lemma worker_step_never_sets {Host : Type}
    (hook : R_state Host -> outcome Host) (st : state Host) :
  pollingRequested_ (signal (step hook Worker st)) = true ->
  pollingRequested_ (signal st) = true.
Proof.
  destruct_state st.
  unfold signal; cbn.
  destruct wpc; cbn; try (intros H; exact H).
  - destruct mu; cbn; intros H; exact H.
  - discriminate.
Qed.

Lemma main_step_never_clears {Host : Type}
    (hook : R_state Host -> outcome Host) (st : state Host) :
  pollingRequested_ (signal st) = true ->
  pollingRequested_ (signal (step hook Main st)) = true.
Proof.
  intros Hfl.
  cbn [step].
  destruct (m_pc st) eqn:Hpc.
  3: rewrite (pollForEvents_step_exec hook st Hpc); exact Hfl.
  all: unfold pollForEvents_step; rewrite Hpc.
  all: try exact Hfl.
  - destruct (mutex_lock Main (signal st)) as [s'|] eqn:Hlock; [|exact Hfl].
    unfold mutex_lock in Hlock.
    destruct (mutex_ (signal st)); [discriminate|].
    injection Hlock as <-; exact Hfl.
  - reflexivity.
Qed.

(** X6.  Only [pollForEvents] sets the flag and only the worker clears
    it, from any state whatever: while the worker alone takes steps a
    clear flag stays clear, and while the main thread alone takes steps
    (any number of callbacks, whatever the event hook does) a set flag
    stays set, so a request waits for the worker and is not lost. *)
Theorem flag_roles {Host : Type}
    (hook : R_state Host -> outcome Host) (st : state Host) (n : nat) :
  (pollingRequested_ (signal st) = false ->
   pollingRequested_ (signal (run hook (repeat Worker n) st)) = false) /\
  (pollingRequested_ (signal st) = true ->
   pollingRequested_ (signal (run hook (repeat Main n) st)) = true).
Proof.
  split.
  - revert st; induction n as [|n IH]; intros st Hfl; [exact Hfl|].
    cbn [repeat]; rewrite run_cons.
    apply IH.
    destruct (pollingRequested_ (signal (step hook Worker st))) eqn:Hs;
      [|reflexivity].
    rewrite (worker_step_never_sets hook st Hs) in Hfl; discriminate.
  - revert st; induction n as [|n IH]; intros st Hfl; [exact Hfl|].
    cbn [repeat]; rewrite run_cons.
    apply IH, main_step_never_clears; exact Hfl.
Qed.

Lemma flag_roles_witness :
  pollingRequested_
    (signal (run failing_hook (repeat Worker 7) (initialize r_enabled))) =
  false /\
  pollingRequested_
    (signal
       (run failing_hook (repeat Worker 9)
          (run failing_hook (repeat Worker 7) (initialize r_enabled)))) =
  false /\
  pollingRequested_ (signal (initialize r_enabled)) = true /\
  pollingRequested_
    (signal (run failing_hook (repeat Main 20) (initialize r_enabled))) = true.
Proof.
  split; [reflexivity|].
  split.
  - apply (proj1 (flag_roles failing_hook
                    (run failing_hook (repeat Worker 7) (initialize r_enabled))
                    9)).
    reflexivity.
  - split; [reflexivity|].
    apply (proj2 (flag_roles failing_hook (initialize r_enabled) 20)).
    reflexivity.
Defined.

(** ** [initialize] called any number of times *)

Lemma pool_run_snoc {Host : Type} (hook : R_state Host -> outcome Host)
    (acts : list actor) (a : actor) (p : pool Host) :
  pool_run hook (acts ++ [a]) p = pool_step hook a (pool_run hook acts p).
Proof.
  unfold pool_run; rewrite fold_left_app; reflexivity.
Qed.

Lemma pool_run_invariant {Host : Type} (hook : R_state Host -> outcome Host)
    (P : pool Host -> Prop) (p : pool Host) :
  P p ->
  (forall a p', P p' -> P (pool_step hook a p')) ->
  forall acts, P (pool_run hook acts p).
Proof.
  intros Hinit Hstep acts.
  induction acts as [|a acts IH] using rev_ind.
  - exact Hinit.
  - rewrite pool_run_snoc; apply Hstep; exact IH.
Qed.

Lemma put_worker_split (i : nat) (w : worker_pc * bool)
    (ws : list (worker_pc * bool)) :
  nth_error ws i = Some w ->
  exists l1 l2,
    ws = l1 ++ w :: l2 /\
    forall w', put_worker i w' ws = l1 ++ w' :: l2.
Proof.
  revert i; induction ws as [|w0 ws IH]; intros i.
  - destruct i; discriminate.
  - destruct i as [|i]; cbn.
    + intros [= ->]; exists [], ws; split; reflexivity.
    + intros Hnth.
      destruct (IH i Hnth) as [l1 [l2 [-> Hput]]].
      exists (w0 :: l1), l2; split; [reflexivity|].
      intros w'; rewrite Hput; reflexivity.
Qed.

Lemma inside_app (l1 l2 : list (worker_pc * bool)) :
  inside (l1 ++ l2) = inside l1 + inside l2.
Proof.
  unfold inside; rewrite filter_app, length_app; reflexivity.
Qed.

Lemma inside_cons (w : worker_pc * bool) (l : list (worker_pc * bool)) :
  inside (w :: l) = (if worker_holds (fst w) then 1 else 0) + inside l.
Proof.
  unfold inside; cbn.
  destruct (worker_holds (fst w)); reflexivity.
Qed.

Lemma outside_not_storing (b : bool) (l : list (worker_pc * bool)) :
  inside l = 0 -> Forall (fun w => fst w = W_store -> snd w = b) l.
Proof.
  induction l as [|[pc req] l IH]; intros Hin; [constructor|].
  rewrite inside_cons in Hin; cbn in Hin.
  constructor.
  - cbn; intros ->; cbn in Hin; discriminate.
  - apply IH; lia.
Qed.

Lemma credits_app (l1 l2 : list (worker_pc * bool)) :
  credits (l1 ++ l2) = credits l1 + credits l2.
Proof.
  unfold credits; rewrite map_app, list_sum_app; reflexivity.
Qed.

Lemma credits_cons (w : worker_pc * bool) (l : list (worker_pc * bool)) :
  credits (w :: l) = pair_credit w + credits l.
Proof. reflexivity. Qed.

Ltac open_lists :=
  repeat rewrite inside_app in *;
  repeat rewrite inside_cons in *;
  repeat rewrite credits_app in *;
  repeat rewrite credits_cons in *;
  cbn [fst snd worker_holds pair_credit] in *.

Ltac pool_arith :=
  repeat match goal with
    | H : ?x = ?x -> _ |- _ => specialize (H eq_refl)
    end;
  repeat match goal with
    | mu : option thread |- _ => destruct mu as [[|]|]
    | pc : main_pc |- _ => destruct pc
    | b : bool |- _ => destruct b
    end;
  cbn in *; try discriminate; try reflexivity; try exact I; try lia.

Ltac pool_outside Hmu :=
  apply outside_not_storing;
  clear - Hmu;
  repeat match goal with
    | mu : option thread |- _ => destruct mu as [[|]|]
    | pc : main_pc |- _ => destruct pc
    end;
  cbn in *; lia.

Ltac pool_reads Hmu Hr1 Hr2 :=
  apply Forall_app; split;
  [ first [exact Hr1 | pool_outside Hmu]
  | constructor;
    [ cbn; intros; first [discriminate | reflexivity | congruence]
    | first [exact Hr2 | pool_outside Hmu] ] ].

Lemma pool_inv_worker {Host : Type} (hook : R_state Host -> outcome Host)
    (i : nat) (p : pool Host) :
  pool_inv p -> pool_inv (pool_step hook (Worker_thread i) p).
Proof.
  intros [Hmu Hown Hread Hpaid].
  cbn [pool_step].
  destruct (nth_error (p_workers p) i) as [[pc req]|] eqn:Hnth;
    [|constructor; assumption].
  destruct (put_worker_split _ _ _ Hnth) as [l1 [l2 [Hws Hput]]].
  clear Hnth.
  destruct p as [[[mu fl] r] ws mpc sc h].
  unfold pool_mutex, pool_flag, flag_credit, as_state, signal in *.
  cbn in *; subst ws.
  apply Forall_app in Hread; destruct Hread as [Hr1 Hr2].
  apply Forall_cons_iff in Hr2; destruct Hr2 as [Hrw Hr2]; cbn in Hrw.
  open_lists.
  destruct pc; cbn.
  2: destruct mu as [[|]|]; cbn.
  all: constructor.
  all: unfold pool_mutex, pool_flag, flag_credit, as_state, signal; cbn.
  all: rewrite ?Hput, ?count_snoc; open_lists.
  all: try solve [pool_reads Hmu Hr1 Hr2].
  all: try solve [clear Hr1 Hr2 Hput; pool_arith].
  destruct req; pool_reads Hmu Hr1 Hr2.
Qed.

Lemma pool_inv_main {Host : Type} (hook : R_state Host -> outcome Host)
    (p : pool Host) :
  pool_inv p -> pool_inv (pool_step hook Main_thread p).
Proof.
  intros [Hmu Hown Hread Hpaid].
  cbn [pool_step].
  destruct (p_m_pc p) eqn:Hpc.
  3: rewrite (pollForEvents_step_exec hook (as_state p (W_sleep, false)) Hpc).
  all: destruct p as [[[mu fl] r] ws mpc sc h].
  all: unfold pool_mutex, pool_flag, flag_credit, as_state, signal in *.
  all: cbn in *; subst mpc; cbn in *.
  4: destruct mu as [[|]|]; cbn.
  all: constructor.
  all: unfold pool_mutex, pool_flag, flag_credit, as_state, signal; cbn.
  all: rewrite ?count_snoc.
  all: try assumption.
  all: try solve [apply outside_not_storing;
                  clear - Hmu; destruct mu as [[|]|]; cbn in *; lia].
  all: try solve [clear Hread; pool_arith].
Qed.

Lemma pool_inv_initialize {Host : Type} (p : pool Host) :
  pool_inv p -> pool_inv (initialize_call p).
Proof.
  intros [Hmu Hown Hread Hpaid].
  destruct p as [[[mu fl] r] ws mpc sc h].
  unfold pool_mutex, pool_flag, flag_credit, as_state, signal in *.
  cbn in *.
  constructor.
  all: unfold pool_mutex, pool_flag, flag_credit, as_state, signal; cbn.
  - rewrite inside_app, inside_cons; cbn.
    change (inside []) with 0; lia.
  - exact Hown.
  - apply Forall_app; split; [exact Hread|].
    constructor; [cbn; discriminate | constructor].
  - rewrite credits_app, credits_cons; cbn.
    change (credits []) with 0; lia.
Qed.

Lemma pool_inv_run {Host : Type} (hook : R_state Host -> outcome Host)
    (acts : list actor) (r0 : R_state Host) :
  pool_inv (pool_run hook acts (loaded r0)).
Proof.
  apply pool_run_invariant.
  - constructor; cbn.
    + reflexivity.
    + exact I.
    + constructor.
    + unfold count, credits; cbn; lia.
  - intros [i| |] p' Hinv.
    + apply pool_inv_worker; exact Hinv.
    + apply pool_inv_main; exact Hinv.
    + apply pool_inv_initialize; exact Hinv.
Qed.

(** X7.  However many times [initialize] is called, and whenever: in
    every interleaving of the workers it started, the main thread and
    further calls of [initialize], at most one thread is between its
    [lock_guard] and the release, and the calls of [Py_AddPendingCall]
    made by all the workers together are at most the calls of
    [requestPolling] that returned, plus one.  More workers do not
    multiply the injections, and a call of [initialize] does not set the
    flag again. *)
Theorem pool_injections_bounded {Host : Type}
    (hook : R_state Host -> outcome Host) (r0 : R_state Host)
    (acts : list actor) :
  inside (p_workers (pool_run hook acts (loaded r0))) +
  (if main_holds (p_m_pc (pool_run hook acts (loaded r0))) then 1 else 0) <= 1 /\
  count is_injection (p_history (pool_run hook acts (loaded r0))) <=
  count is_request (p_history (pool_run hook acts (loaded r0))) + 1.
Proof.
  destruct (pool_inv_run hook acts r0) as [Hmu _ _ Hpaid].
  split.
  - rewrite Hmu; destruct (pool_mutex _); lia.
  - lia.
Qed.

(** *** Calls of [initialize] and workers *)

Lemma pool_step_workers {Host : Type} (hook : R_state Host -> outcome Host)
    (a : actor) (p : pool Host) :
  length (p_workers (pool_step hook a p)) =
  length (p_workers p) + (if is_initialize a then 1 else 0).
Proof.
  destruct a as [i| |]; cbn [pool_step is_initialize].
  - destruct (nth_error (p_workers p) i) as [w|] eqn:Hnth; [|lia].
    destruct (put_worker_split _ _ _ Hnth) as [l1 [l2 [Hws Hput]]].
    cbn [p_workers]; rewrite Hput, Hws, !length_app; cbn; lia.
  - cbn [p_workers]; lia.
  - unfold initialize_call; cbn [p_workers].
    rewrite length_app; reflexivity.
Qed.

Lemma pool_without_workers {Host : Type}
    (hook : R_state Host -> outcome Host) (a : actor) (p : pool Host) :
  p_workers p = [] ->
  is_initialize a = false ->
  p_workers (pool_step hook a p) = [] /\
  filter is_worker_event (p_history (pool_step hook a p)) =
  filter is_worker_event (p_history p).
Proof.
  intros Hws Hnot.
  destruct a as [i| |]; [| |discriminate]; cbn [pool_step].
  - rewrite Hws; destruct i; cbn; split; (exact Hws || reflexivity).
  - split; [exact Hws|].
    cbn [p_history].
    destruct (p_m_pc p) eqn:Hpc.
    3: rewrite (pollForEvents_step_exec hook (as_state p (W_sleep, false)) Hpc);
       reflexivity.
    all: unfold pollForEvents_step, as_state; cbn; rewrite Hpc; cbn.
    all: rewrite ?filter_app; cbn; rewrite ?app_nil_r; try reflexivity.
    destruct (mutex_lock Main _); reflexivity.
Qed.

(** X8.  [initialize] is not idempotent and is the only way the
    mechanism starts: in every interleaving the number of worker threads
    is the number of calls of [initialize] made, each call adding one;
    and as long as [initialize] has not been called, no worker sleeps,
    collects or calls [Py_AddPendingCall], whatever the main thread
    does. *)
Theorem initialize_starts_one_worker_each {Host : Type}
    (hook : R_state Host -> outcome Host) (r0 : R_state Host)
    (acts : list actor) :
  length (p_workers (pool_run hook acts (loaded r0))) =
  length (filter is_initialize acts) /\
  (filter is_initialize acts = [] ->
   filter is_worker_event (p_history (pool_run hook acts (loaded r0))) = []).
Proof.
  split.
  - induction acts as [|a acts IH] using rev_ind; [reflexivity|].
    rewrite pool_run_snoc, pool_step_workers, IH, filter_app, length_app.
    cbn; destruct (is_initialize a); reflexivity.
  - induction acts as [|a acts IH] using rev_ind; [reflexivity|].
    rewrite filter_app; intros Hnone.
    apply app_eq_nil in Hnone; destruct Hnone as [Hnone Ha].
    assert (Hnot : is_initialize a = false).
    { cbn in Ha; destruct (is_initialize a); [discriminate | reflexivity]. }
    assert (Hws : p_workers (pool_run hook acts (loaded r0)) = []).
    { clear - Hnone.
      induction acts as [|a acts IH] using rev_ind; [reflexivity|].
      rewrite filter_app in Hnone.
      apply app_eq_nil in Hnone; destruct Hnone as [Hnone Ha].
      rewrite pool_run_snoc.
      apply pool_without_workers; [apply IH; exact Hnone|].
      cbn in Ha; destruct (is_initialize a); [discriminate | reflexivity]. }
    rewrite pool_run_snoc.
    destruct (pool_without_workers hook a _ Hws Hnot) as [_ Hh].
    rewrite Hh; apply IH; exact Hnone.
Qed.

Lemma initialize_starts_one_worker_each_witness :
  filter is_initialize [Main_thread; Worker_thread 0; Main_thread] = [] /\
  filter is_worker_event
    (p_history
       (pool_run failing_hook [Main_thread; Worker_thread 0; Main_thread]
          (loaded r_enabled))) = [].
Proof.
  split; [reflexivity|].
  apply (proj2 (initialize_starts_one_worker_each failing_hook r_enabled
                  [Main_thread; Worker_thread 0; Main_thread])).
  reflexivity.
Defined.

(** *** One call of [initialize] *)

Lemma main_step_of_pool {Host : Type}
    (hook : R_state Host -> outcome Host) (st : state Host) :
  pool_step hook Main_thread (pool_of_state st) =
  pool_of_state (step hook Main st).
Proof.
  cbn [pool_step step].
  destruct (m_pc st) eqn:Hpc.
  3: { rewrite (pollForEvents_step_exec hook st Hpc).
       rewrite (pollForEvents_step_exec hook
                  (as_state (pool_of_state st) (W_sleep, false)) Hpc).
       reflexivity. }
  all: destruct_state st; cbn in Hpc; subst mpc.
  all: unfold pool_of_state, as_state, pollForEvents_step; cbn.
  all: try reflexivity.
  destruct mu; reflexivity.
Qed.

(** After one call of [initialize] the pool is the worker and the main
    thread of the two-thread model, step for step. *)
Lemma one_worker_pool {Host : Type}
    (hook : R_state Host -> outcome Host) (r0 : R_state Host)
    (sched : list thread) :
  pool_run hook (map actor_of_thread sched) (initialize_call (loaded r0)) =
  pool_of_state (run hook sched (initialize r0)).
Proof.
  induction sched as [|t sched IH] using rev_ind; [reflexivity|].
  rewrite map_app; cbn [map].
  rewrite pool_run_snoc, run_snoc, IH.
  generalize (run hook sched (initialize r0)); intros st.
  destruct t; cbn [actor_of_thread].
  - destruct_state st.
    unfold pool_of_state; cbn.
    destruct wpc; cbn; try reflexivity.
    all: destruct mu; reflexivity.
  - apply main_step_of_pool.
Qed.

(** *** Several workers and one request *)

Lemma returned_credits_app (l1 l2 : list (worker_pc * bool)) :
  returned_credits (l1 ++ l2) = returned_credits l1 + returned_credits l2.
Proof.
  unfold returned_credits; rewrite map_app, list_sum_app; reflexivity.
Qed.

Lemma returned_credits_cons (w : worker_pc * bool)
    (l : list (worker_pc * bool)) :
  returned_credits (w :: l) = returned_credit w + returned_credits l.
Proof. reflexivity. Qed.

Lemma returned_credits_le (ws : list (worker_pc * bool)) :
  returned_credits ws <= credits ws.
Proof.
  induction ws as [|[pc req] ws IH]; [unfold returned_credits, credits; cbn; lia|].
  rewrite returned_credits_cons, credits_cons.
  unfold returned_credit, pair_credit; cbn.
  destruct pc, req; lia.
Qed.

(** Every [true] returned by a [collectRequest] has led to a call of
    [Py_AddPendingCall] or is still in the hands of its worker. *)
Lemma true_collects_step {Host : Type} (hook : R_state Host -> outcome Host)
    (a : actor) (p : pool Host) :
  count is_true_collect (p_history p) =
  count is_injection (p_history p) + returned_credits (p_workers p) ->
  count is_true_collect (p_history (pool_step hook a p)) =
  count is_injection (p_history (pool_step hook a p)) +
  returned_credits (p_workers (pool_step hook a p)).
Proof.
  intros Heq.
  destruct a as [i| |]; cbn [pool_step].
  - destruct (nth_error (p_workers p) i) as [[pc req]|] eqn:Hnth;
      [|exact Heq].
    destruct (put_worker_split _ _ _ Hnth) as [l1 [l2 [Hws Hput]]].
    clear Hnth.
    destruct p as [[[mu fl] r] ws mpc sc h].
    unfold as_state, signal in *.
    cbn in *; subst ws.
    rewrite returned_credits_app, returned_credits_cons in Heq.
    unfold returned_credit in Heq; cbn in Heq.
    destruct pc; cbn.
    2: destruct mu as [[|]|]; cbn.
    all: rewrite ?Hput, ?count_snoc, ?returned_credits_app,
           ?returned_credits_cons.
    all: unfold returned_credit; cbn.
    all: destruct req; cbn in *; lia.
  - cbn [p_history p_workers].
    destruct (p_m_pc p) eqn:Hpc.
    3: rewrite (pollForEvents_step_exec hook (as_state p (W_sleep, false)) Hpc);
       exact Heq.
    all: unfold pollForEvents_step, as_state; cbn; rewrite Hpc; cbn.
    all: rewrite ?count_snoc; cbn; try lia.
    destruct (mutex_lock Main _); cbn; lia.
  - unfold initialize_call; cbn.
    rewrite returned_credits_app, returned_credits_cons.
    unfold returned_credit; cbn.
    change (returned_credits []) with 0; lia.
Qed.

(** X9.  With any number of workers no request is consumed twice: in
    every interleaving the calls of [collectRequest] that returned [true],
    over all the workers, are at most the calls of [requestPolling] that
    returned, plus one for the flag the constructor set; and each of them
    has led to one call of [Py_AddPendingCall] or is about to. *)
Theorem pool_no_double_collect {Host : Type}
    (hook : R_state Host -> outcome Host) (r0 : R_state Host)
    (acts : list actor) :
  count is_true_collect (p_history (pool_run hook acts (loaded r0))) <=
  count is_request (p_history (pool_run hook acts (loaded r0))) + 1 /\
  count is_true_collect (p_history (pool_run hook acts (loaded r0))) =
  count is_injection (p_history (pool_run hook acts (loaded r0))) +
  returned_credits (p_workers (pool_run hook acts (loaded r0))).
Proof.
  assert (Heq : count is_true_collect (p_history (pool_run hook acts (loaded r0))) =
                count is_injection (p_history (pool_run hook acts (loaded r0))) +
                returned_credits (p_workers (pool_run hook acts (loaded r0)))).
  { apply pool_run_invariant
      with (P := fun p => count is_true_collect (p_history p) =
                          count is_injection (p_history p) +
                          returned_credits (p_workers p)).
    - reflexivity.
    - intros a p'; apply true_collects_step. }
  split; [|exact Heq].
  destruct (pool_inv_run hook acts r0) as [_ _ _ Hpaid].
  pose proof (returned_credits_le (p_workers (pool_run hook acts (loaded r0)))).
  lia.
Qed.
